(** * PolygraalX: the paper-trading store, the snipable-market filter and the
      signal/exit engine.

    Conventions of the embedding.
    - The paper-trading store is written once, over the arithmetic of a
      [Number]: the operations and comparisons a JavaScript [number] offers.
      [binary64] is the arithmetic the code runs on (IEEE 754 doubles, round
      to nearest even); [exact] is the arithmetic of the rationals, used where
      a property is about money without rounding.  Every number has an exact
      value, [n_val], a rational; equalities between values are stated with
      [==].
    - Counters and timestamps ([tradesCount], [Date.now()]) and market scores
      are integers ([Z]).
    - [localStorage] is a pair of optional items.  [JSON.stringify] followed
      by [JSON.parse] keeps a finite number, reads -0 back as 0 and turns a
      number that is not finite into [null]; the optional numbers that
      [closeOrder] writes ([exitPrice], [pnl], [roi]) go through it
      ([n_json]).  The other numbers that are stored (the four numbers of a
      profile, the numbers of the order passed to [addOrder]) are taken to be
      finite and not -0, so that they are read back as written.
    - [Math.random] and [Date.now] are inputs of the operation that calls them. *)

From Stdlib Require Import ZArith QArith Qabs Lqa Lia Bool.
From Stdlib Require PrimFloat SpecFloat FloatOps FloatAxioms Uint63.
From stdpp Require Import base list strings sorting gmap.

#[local] Open Scope Z_scope.

(** Decidable comparisons on rationals, for [filter] and [if]. *)
#[global] Instance Qlt_decision (x y : Q) : Decision (x < y)%Q.
Proof.
  destruct (Qlt_le_dec x y) as [Hlt | Hle]; [left | right]; auto using Qle_not_lt.
Defined.

#[global] Instance Qle_decision (x y : Q) : Decision (x <= y)%Q.
Proof.
  destruct (Qlt_le_dec y x) as [Hlt | Hle]; [right | left]; auto using Qlt_not_le.
Defined.

(** ** The arithmetic of a JavaScript number *)

(** What the store asks of its numbers: the literals it writes, the four
    operations, [<] and [<=], the conversion of an array length, whether a
    number is finite, what [JSON.parse (JSON.stringify v)] gives for an
    optional number ([None] is [null]), and the exact value. *)
Class Number := {
  num : Type;
  n_zero : num;
  n_100 : num;
  n_1000 : num;
  n_add : num -> num -> num;
  n_sub : num -> num -> num;
  n_mul : num -> num -> num;
  n_div : num -> num -> num;
  n_lt : num -> num -> bool;
  n_le : num -> num -> bool;
  n_of_nat : nat -> num;
  n_finite : num -> bool;
  n_json : num -> option num;
  n_val : num -> Q;
  n_val_zero : (n_val n_zero == 0)%Q;
  n_val_json : forall v, (n_val (default n_zero (n_json v)) == n_val v)%Q
}.

Declare Scope num_scope.
Delimit Scope num_scope with num.
Infix "+" := n_add : num_scope.
Infix "-" := n_sub : num_scope.
Infix "*" := n_mul : num_scope.
Infix "/" := n_div : num_scope.
Infix "<?" := n_lt : num_scope.
Infix "<=?" := n_le : num_scope.

(** The exact value of a double: sign, mantissa and exponent of a finite
    one; 0 for a zero (and, by convention, for an infinity and for NaN, which
    [float_finite] tells apart). *)
Definition float_val (f : PrimFloat.float) : Q :=
  match FloatOps.Prim2SF f with
  | SpecFloat.S754_finite s m e =>
      let q := if 0 <=? e then inject_Z (Z.pos m * 2 ^ e)
               else Z.pos m # Z.to_pos (2 ^ (- e)) in
      if s then (- q)%Q else q
  | _ => 0%Q
  end.

Definition float_finite (f : PrimFloat.float) : bool :=
  match FloatOps.Prim2SF f with
  | SpecFloat.S754_finite _ _ _ | SpecFloat.S754_zero _ => true
  | _ => false
  end.

(** A double after [JSON.stringify] and [JSON.parse]: the shortest decimal
    that [JSON.stringify] prints is read back as the same double; -0 is
    printed as [0]; an infinity and NaN are printed as [null]. *)
Definition float_json (f : PrimFloat.float) : option PrimFloat.float :=
  match FloatOps.Prim2SF f with
  | SpecFloat.S754_finite _ _ _ => Some f
  | SpecFloat.S754_zero _ => Some PrimFloat.zero
  | _ => None
  end.

Lemma float_val_json (f : PrimFloat.float) :
  (float_val (default PrimFloat.zero (float_json f)) == float_val f)%Q.
Proof.
  unfold float_json, float_val.
  destruct (FloatOps.Prim2SF f) eqn:Hf; cbn [from_option id]; rewrite ?Hf; reflexivity.
Qed.

(** IEEE 754 binary64, the [number] of the code. *)
Definition binary64 : Number := {|
  num := PrimFloat.float;
  n_zero := PrimFloat.zero;
  n_100 := PrimFloat.of_uint63 (Uint63.of_Z 100);
  n_1000 := PrimFloat.of_uint63 (Uint63.of_Z 1000);
  n_add := PrimFloat.add;
  n_sub := PrimFloat.sub;
  n_mul := PrimFloat.mul;
  n_div := PrimFloat.div;
  n_lt := PrimFloat.ltb;
  n_le := PrimFloat.leb;
  n_of_nat := λ n, PrimFloat.of_uint63 (Uint63.of_Z (Z.of_nat n));
  n_finite := float_finite;
  n_json := float_json;
  n_val := float_val;
  n_val_zero := eq_refl;
  n_val_json := float_val_json
|}.

(** The rationals: every operation is exact. *)
Definition Qltb (a b : Q) : bool := negb (Qle_bool b a).

Definition exact : Number := {|
  num := Q;
  n_zero := 0%Q;
  n_100 := 100%Q;
  n_1000 := 1000%Q;
  n_add := Qplus;
  n_sub := Qminus;
  n_mul := Qmult;
  n_div := Qdiv;
  n_lt := Qltb;
  n_le := Qle_bool;
  n_of_nat := λ n, inject_Z (Z.of_nat n);
  n_finite := λ _, true;
  n_json := Some;
  n_val := λ q, q;
  n_val_zero := Qeq_refl 0;
  n_val_json := λ q, Qeq_refl q
|}.

(** [0 <= x]. *)
Definition n_nonneg `{Number} (x : num) : Prop := (n_zero <=? x)%num = true.

(** An arithmetic whose order goes along with its operations, as far as the
    balance needs it: [a - b] is not negative when [a < b] is false, a
    product and a sum of numbers that are not negative are not negative.  The
    operands asked to be finite are those for which an infinity or NaN
    would give NaN. *)
Class NumberOrder (N : Number) := {
  n_sub_nonneg : forall a b : num,
    n_nonneg a -> n_finite b = true -> (a <? b)%num = false -> n_nonneg (a - b)%num;
  n_mul_nonneg : forall a b : num,
    n_nonneg a -> n_finite a = true -> n_nonneg b -> n_finite b = true ->
    n_nonneg (a * b)%num;
  n_add_nonneg : forall a b : num,
    n_nonneg a -> n_nonneg b -> n_nonneg (a + b)%num
}.

(** The doubles that [0 <= x] holds of (a zero, a positive number,
    +infinity), and the finite ones, on their specification. *)
Definition sf_nonneg (x : SpecFloat.spec_float) : bool :=
  match x with
  | SpecFloat.S754_zero _ => true
  | SpecFloat.S754_infinity s => negb s
  | SpecFloat.S754_nan => false
  | SpecFloat.S754_finite s _ _ => negb s
  end.

Definition sf_finite (x : SpecFloat.spec_float) : bool :=
  match x with
  | SpecFloat.S754_zero _ | SpecFloat.S754_finite _ _ _ => true
  | _ => false
  end.

(** ** lib/paper-trading.ts *)
Module PaperTrading.

Inductive OrderType := BUY | SELL.
Inductive Outcome := YES | NO.
Inductive Status := OPEN | CLOSED | CANCELLED.

#[global] Instance Status_eq_dec : EqDecision Status.
Proof. solve_decision. Defined.

Section Store.
Context {N : Number}.

(** [interface PaperOrder]; the optional fields are [option]s. *)
Record PaperOrder := {
  id : string;
  marketId : string;
  marketTitle : string;
  type : OrderType;
  outcome : Outcome;
  amount : num;
  entryPrice : num;
  shares : num;
  timestamp : Z;
  status : Status;
  exitPrice : option num;
  pnl : option num;
  roi : option num
}.

(** [Omit<PaperOrder, 'id' | 'timestamp' | 'status'>], the argument of
    [addOrder]. *)
Record OrderInput := {
  in_marketId : string;
  in_marketTitle : string;
  in_type : OrderType;
  in_outcome : Outcome;
  in_amount : num;
  in_entryPrice : num;
  in_shares : num;
  in_exitPrice : option num;
  in_pnl : option num;
  in_roi : option num
}.

(** [interface PaperProfile]. *)
Record PaperProfile := {
  username : string;
  initialBalance : num;
  currentBalance : num;
  totalPnL : num;
  winRate : num;
  tradesCount : Z;
  active : bool;
  autoFollow : bool
}.

Definition DEFAULT_PROFILE : PaperProfile := {|
  username := "Ghost Trader";
  initialBalance := n_1000;
  currentBalance := n_1000;
  totalPnL := n_zero;
  winRate := n_zero;
  tradesCount := 0;
  active := false;
  autoFollow := false
|}.

(** The state the store works on: the two [localStorage] items and the
    module-level object [DEFAULT_PROFILE].  [getProfile] hands out that very
    object when no profile is stored, so the in-place updates of [addOrder]
    and [closeOrder] reach it; [default_obj] is its current content. *)
Record Store := {
  default_obj : PaperProfile;
  profile_item : option PaperProfile;
  orders_item : option (list PaperOrder)
}.

(** A freshly loaded page: the module object has its literal value. *)
Definition page_load (p : option PaperProfile) (os : option (list PaperOrder)) : Store :=
  {| default_obj := DEFAULT_PROFILE; profile_item := p; orders_item := os |}.

Definition getProfile (s : Store) : PaperProfile :=
  match profile_item s with
  | Some p => p
  | None => default_obj s
  end.

Definition getOrders (s : Store) : list PaperOrder :=
  match orders_item s with
  | Some os => os
  | None => []
  end.

(** The object [profile] obtained from [getProfile] has been updated in place
    to [p']; when it is the module object, that one changes too. *)
Definition mutate_profile (s : Store) (p' : PaperProfile) : PaperProfile :=
  match profile_item s with
  | Some _ => default_obj s
  | None => p'
  end.

Definition saveProfile (profile : PaperProfile) (s : Store) : Store :=
  {| default_obj := default_obj s;
     profile_item := Some profile;
     orders_item := orders_item s |}.

Definition mkOrder (order : OrderInput) (rnd_id : string) (now : Z) : PaperOrder := {|
  id := rnd_id;
  marketId := in_marketId order;
  marketTitle := in_marketTitle order;
  type := in_type order;
  outcome := in_outcome order;
  amount := in_amount order;
  entryPrice := in_entryPrice order;
  shares := in_shares order;
  timestamp := now;
  status := OPEN;
  exitPrice := in_exitPrice order;
  pnl := in_pnl order;
  roi := in_roi order
|}.

(** [addOrder]: [None] is the [return null] of the insufficient-balance
    branch. *)
Definition addOrder (order : OrderInput) (rnd_id : string) (now : Z) (s : Store)
  : option PaperOrder * Store :=
  let orders := getOrders s in
  let profile := getProfile s in
  if (currentBalance profile <? in_amount order)%num then (None, s)
  else
    let newOrder := mkOrder order rnd_id now in
    let orders' := newOrder :: orders in
    let profile' := {|
      username := username profile;
      initialBalance := initialBalance profile;
      currentBalance := (currentBalance profile - in_amount order)%num;
      totalPnL := totalPnL profile;
      winRate := winRate profile;
      tradesCount := tradesCount profile + 1;
      active := active profile;
      autoFollow := autoFollow profile |} in
    (Some newOrder,
     {| default_obj := mutate_profile s profile';
        profile_item := Some profile';
        orders_item := Some orders' |}).

(** The object that [closeOrder] puts at [orders[orderIndex]], with
    [returnAmount = order.shares * exitPrice], [pnl = returnAmount -
    order.amount] and [roi = (pnl / order.amount) * 100]. *)
Definition updated_order (order : PaperOrder) (px : num) : PaperOrder :=
  let returnAmount := (shares order * px)%num in
  let pnl' := (returnAmount - amount order)%num in
  {| id := id order;
     marketId := marketId order;
     marketTitle := marketTitle order;
     type := type order;
     outcome := outcome order;
     amount := amount order;
     entryPrice := entryPrice order;
     shares := shares order;
     timestamp := timestamp order;
     status := CLOSED;
     exitPrice := Some px;
     pnl := Some pnl';
     roi := Some (pnl' / amount order * n_100)%num |}.

(** The optional numbers of an order as [JSON.stringify] and [JSON.parse]
    leave them. *)
Definition stringify (o : PaperOrder) : PaperOrder :=
  {| id := id o;
     marketId := marketId o;
     marketTitle := marketTitle o;
     type := type o;
     outcome := outcome o;
     amount := amount o;
     entryPrice := entryPrice o;
     shares := shares o;
     timestamp := timestamp o;
     status := status o;
     exitPrice := exitPrice o ≫= n_json;
     pnl := pnl o ≫= n_json;
     roi := roi o ≫= n_json |}.

(** The closed order as it is stored, and read by every later call and by
    the pages: a [roi] that is not finite (as with a zero [amount]) is
    [null]. *)
Definition closed_order (order : PaperOrder) (px : num) : PaperOrder :=
  stringify (updated_order order px).

(** [o.pnl || 0]. *)
Definition pnl_or_0 (o : PaperOrder) : num :=
  match pnl o with
  | Some v => v
  | None => n_zero
  end.

(** [closeOrder].  The win count reads the array in memory, where the order
    just closed carries its numbers as computed; the array is then stored,
    and the order is read back in its JSON form, [closed_order]. *)
Definition closeOrder (orderId : string) (px : num) (s : Store) : Store :=
  let orders := getOrders s in
  let profile := getProfile s in
  match list_find (λ o, id o = orderId) orders with
  | None => s
  | Some (orderIndex, order) =>
    match status order with
    | OPEN =>
      let returnAmount := (shares order * px)%num in
      let pnl' := (returnAmount - amount order)%num in
      let orders' := <[orderIndex := updated_order order px]> orders in
      let wins := length (filter (λ o, (n_zero <? pnl_or_0 o)%num = true) orders') in
      let closed := length (filter (λ o, status o = CLOSED) orders') in
      let profile' := {|
        username := username profile;
        initialBalance := initialBalance profile;
        currentBalance := (currentBalance profile + returnAmount)%num;
        totalPnL := (totalPnL profile + pnl')%num;
        winRate := if decide (0 < closed)%nat
                   then (n_of_nat wins / n_of_nat closed * n_100)%num
                   else n_zero;
        tradesCount := tradesCount profile;
        active := active profile;
        autoFollow := autoFollow profile |} in
      {| default_obj := mutate_profile s profile';
         profile_item := Some profile';
         orders_item := Some (<[orderIndex := closed_order order px]> orders) |}
    | _ => s
    end
  end.

Definition reset (balance : num) (s : Store) : Store :=
  let d := default_obj s in
  let newProfile := {|
    username := username d;
    initialBalance := balance;
    currentBalance := balance;
    totalPnL := totalPnL d;
    winRate := winRate d;
    tradesCount := tradesCount d;
    active := true;
    autoFollow := autoFollow d |} in
  {| default_obj := d;
     profile_item := Some newProfile;
     orders_item := Some [] |}.

(** The store's operations as data, to speak about sequences of calls.
    [TradeOp] are the two order operations; [Op] adds [reset] and
    [saveProfile] (the settings page). *)
Inductive TradeOp :=
| AddOrder (order : OrderInput) (rnd_id : string) (now : Z)
| CloseOrder (orderId : string) (px : num).

Inductive Op :=
| Trade (t : TradeOp)
| Reset (balance : num)
| SaveProfile (profile : PaperProfile).

Definition exec_trade (t : TradeOp) (s : Store) : Store :=
  match t with
  | AddOrder order rnd_id now => (addOrder order rnd_id now s).2
  | CloseOrder orderId px => closeOrder orderId px s
  end.

Definition exec (op : Op) (s : Store) : Store :=
  match op with
  | Trade t => exec_trade t s
  | Reset balance => reset balance s
  | SaveProfile profile => saveProfile profile s
  end.

Fixpoint run (ops : list Op) (s : Store) : Store :=
  match ops with
  | [] => s
  | op :: ops' => run ops' (exec op s)
  end.

(** Where the order stored at index [i] sits after one operation: [unshift]
    moves it one place down, [closeOrder] and [saveProfile] leave the places
    alone, [reset] wipes the list ([None]). *)
Definition track (op : Op) (s : Store) (i : nat) : option nat :=
  match op with
  | Trade (AddOrder order rnd_id now) =>
      match (addOrder order rnd_id now s).1 with
      | Some _ => Some (S i)
      | None => Some i
      end
  | Trade (CloseOrder _ _) => Some i
  | Reset _ => None
  | SaveProfile _ => Some i
  end.

Fixpoint track_all (ops : list Op) (s : Store) (i : nat) : option nat :=
  match ops with
  | [] => Some i
  | op :: ops' =>
      match track op s i with
      | Some j => track_all ops' (exec op s) j
      | None => None
      end
  end.

Definition is_reset (op : Op) : bool :=
  match op with
  | Reset _ => true
  | _ => false
  end.

(** States the application reaches through the store: a first visit with an
    empty [localStorage], any operation, and a page reload (which re-creates
    the module object and keeps the stored items). *)
Inductive reachable : Store -> Prop :=
| reach_first_visit : reachable (page_load None None)
| reach_exec op s : reachable s -> reachable (exec op s)
| reach_reload s : reachable s -> reachable (page_load (profile_item s) (orders_item s)).

(** Quantities used to state the properties. *)
Definition open_count (s : Store) : nat :=
  length (filter (λ o, status o = OPEN) (getOrders s)).

Fixpoint sumQ {A} (f : A -> Q) (l : list A) : Q :=
  match l with
  | [] => 0%Q
  | x :: l' => (f x + sumQ f l')%Q
  end.

Definition exit_or_0 (o : PaperOrder) : num :=
  match exitPrice o with
  | Some v => v
  | None => n_zero
  end.

(** The exact values of an order's amount and of shares * exitPrice. *)
Definition staked (o : PaperOrder) : Q := n_val (amount o).

Definition returned (o : PaperOrder) : Q :=
  (n_val (shares o) * n_val (exit_or_0 o))%Q.

(** currentBalance = initialBalance - sum of amount over all orders
    + sum of shares * exitPrice over CLOSED orders, as an equation between
    exact values. *)
Definition balance_accounted (s : Store) : Prop :=
  let p := getProfile s in
  let os := getOrders s in
  (n_val (currentBalance p) ==
     n_val (initialBalance p) - sumQ staked os
     + sumQ returned (filter (λ o, status o = CLOSED) os))%Q.

(** currentBalance = initialBalance + totalPnL - sum of amount over OPEN
    orders, as an equation between exact values. *)
Definition balance_from_pnl (s : Store) : Prop :=
  let p := getProfile s in
  let os := getOrders s in
  (n_val (currentBalance p) ==
     n_val (initialBalance p) + n_val (totalPnL p)
     - sumQ staked (filter (λ o, status o = OPEN) os))%Q.






(** What a position can become: itself, or, when it was open, its closed
    form at some exit price. *)
Definition unchanged_or_closed (o o' : PaperOrder) : Prop :=
  o' = o \/ (status o = OPEN /\ exists px, o' = closed_order o px).




(** The formula of the engine's description, on a paper order, in exact
    values. *)
Definition directionSign (o : Outcome) : Q :=
  match o with
  | YES => 1%Q
  | NO => (-1)%Q
  end.

Definition signed_pnl (o : PaperOrder) (px : num) : Q :=
  ((n_val px - n_val (entryPrice o)) * n_val (shares o) * directionSign (outcome o))%Q.

End Store.
End PaperTrading.
(** ** lib/dynamic-filter.ts, and its earlier version *)
Module DynamicFilter.

(** [{ market: ProcessedMarket; sniping: SnipabilityScore }].  The two types
    are declared in modules that are not part of these sources; they are
    parameters here, with the projection [score] of [SnipabilityScore]. *)
Record Scored (ProcessedMarket SnipabilityScore : Type) := {
  market : ProcessedMarket;
  sniping : SnipabilityScore
}.
Arguments market {_ _} _.
Arguments sniping {_ _} _.

Section Filter.
Context {ProcessedMarket SnipabilityScore : Type}.
Variable score : SnipabilityScore -> Z.

Abbreviation item := (Scored ProcessedMarket SnipabilityScore).

Definition score_of (m : item) : Z := score (sniping m).

(** [markets.sort((a, b) => b.sniping.score - a.sniping.score)]: the stable
    sort by descending score.  [x] stood before the elements of [l] in the
    input, so it goes before the first element that is not better. *)
Fixpoint insert_desc (x : item) (l : list item) : list item :=
  match l with
  | [] => [x]
  | y :: l' =>
      if score_of y <=? score_of x then x :: y :: l'
      else y :: insert_desc x l'
  end.

Definition sort_desc (markets : list item) : list item :=
  foldr insert_desc [] markets.

(** [l.slice(0, e)] for an integer [e]: a negative [e] counts from the end. *)
Definition slice0 {A} (e : Z) (l : list A) : list A :=
  if e <? 0 then take (Z.to_nat (Z.max (Z.of_nat (length l) + e) 0)) l
  else take (Z.to_nat e) l.

Definition len {A} (l : list A) : Z := Z.of_nat (length l).

(** The [for (const minScore of thresholds)] loop; [lowest] is
    [thresholds[thresholds.length - 1]], [lastResort] the size accepted at
    the lowest threshold.  [None]: the loop ran to its end. *)
Fixpoint scan (lowest lastResort targetMin targetMax : Z) (sorted : list item)
    (thresholds : list Z) : option (list item) :=
  match thresholds with
  | [] => None
  | minScore :: rest =>
      let filtered := filter (λ m, minScore <= score_of m) sorted in
      if (targetMin <=? len filtered) && (len filtered <=? targetMax)
      then Some filtered
      else if targetMax <? len filtered
      then Some (slice0 targetMax filtered)
      else if (len filtered <? targetMin) && (lowest <? minScore)
      then scan lowest lastResort targetMin targetMax sorted rest
      else if lastResort <=? len filtered
      then Some filtered
      else scan lowest lastResort targetMin targetMax sorted rest
  end.

Definition filter_with (thresholds : list Z) (lastResort fallbackTop : Z)
    (markets : list item) (targetMin targetMax : Z) : list item :=
  let sorted := sort_desc markets in
  match scan (List.last thresholds 0) lastResort targetMin targetMax sorted
          thresholds with
  | Some result => result
  | None => slice0 (Z.min fallbackTop (len sorted)) sorted
  end.

(** src/lib/dynamic-filter.ts: thresholds 60 down to 30, last resort at 20
    markets, fallback to the top 50; defaults [targetMin = 40],
    [targetMax = 200]. *)
Definition filterSnipableMarkets : list item -> Z -> Z -> list item :=
  filter_with [60; 55; 50; 45; 40; 35; 30] 20 50.

Definition filterSnipableMarkets_default (markets : list item) : list item :=
  filterSnipableMarkets markets 40 200.

(** The earlier version of the same function: thresholds 50 down to 5, last
    resort at 10 markets, fallback to the top 100; defaults [targetMin = 25],
    [targetMax = 500]. *)
Definition filterSnipableMarkets_v1 : list item -> Z -> Z -> list item :=
  filter_with [50; 45; 40; 35; 30; 25; 20; 15; 10; 5] 10 100.

Definition filterSnipableMarkets_v1_default (markets : list item) : list item :=
  filterSnipableMarkets_v1 markets 25 500.

(** Descending order of scores. *)
Definition desc (a b : item) : Prop := score_of b <= score_of a.

End Filter.
End DynamicFilter.

(** ** The signal-and-exit engine *)
Module Engine.

(** Modelled from the spec: the whole engine.  Its modules (price_feed.py,
    volatility.py, positions.py, trading.py) are named by the README and are
    not among the sources; every definition of this module follows sections
    3, 4 and 6 of the specification.  Times are seconds. *)
Record Config := {
  entryThreshold : Q;
  exitThreshold : Q;
  lookbackSeconds : Z;
  betAmount : Q;
  maxPositions : nat;
  cooldownSeconds : Z;
  minCloseBuffer : Z;
  maxHoldDuration : Z
}.

Definition default_config : Config := {|
  entryThreshold := 5 # 2;
  exitThreshold := 1 # 2;
  lookbackSeconds := 60;
  betAmount := 10;
  maxPositions := 5;
  cooldownSeconds := 60;
  minCloseBuffer := 120;
  maxHoldDuration := 300
|}.

Record PriceSample := {
  sample_asset : string;
  sample_price : Q;
  sample_time : Z
}.

(** One window per asset, oldest sample first. *)
Definition RollingWindow := list PriceSample.

(** Modelled from the spec: [RollingWindow.insert(sample)] (source absent):
    append, then evict what is older than the lookback. *)
Definition insert (cfg : Config) (sample : PriceSample) (w : RollingWindow)
  : RollingWindow :=
  filter (λ x, sample_time sample - lookbackSeconds cfg <= sample_time x)
         (w ++ [sample]).

Inductive WindowStats :=
| Insufficient
| Stats (mean stddev : Q) (count : nat).

(** A division that fails on a zero divisor instead of returning a value. *)
Definition checked_div (a b : Q) : option Q :=
  if Qeq_bool b 0 then None else Some (a / b)%Q.

Definition total (w : RollingWindow) : Q :=
  foldr (λ x acc, (sample_price x + acc)%Q) 0%Q w.

Definition squares (m : Q) (w : RollingWindow) : Q :=
  foldr (λ x acc, ((sample_price x - m) * (sample_price x - m) + acc)%Q) 0%Q w.

Section Stats.
(** The square root is taken from the numeric library. *)
Variable sqrt : Q -> Q.

(** Modelled from the spec: [RollingWindow.stats()] (source absent):
    insufficient below the configured minimum and wherever the sample
    standard deviation is undefined (fewer than 2 samples); otherwise
    the mean and the sample standard deviation, with divisor [count - 1].
    [None] stands for a division by zero. *)
Definition stats (minSamples : nat) (w : RollingWindow) : option WindowStats :=
  let n := length w in
  if (n <? minSamples)%nat || (n <? 2)%nat then Some Insufficient
  else
    match checked_div (total w) (inject_Z (Z.of_nat n)) with
    | None => None
    | Some m =>
        match checked_div (squares m w) (inject_Z (Z.of_nat n - 1)) with
        | None => None
        | Some v => Some (Stats m (sqrt v) n)
        end
    end.
End Stats.

Inductive Side := YES | NO.
Inductive SignalKind := ENTER_YES | ENTER_NO | EXIT | NONE.

Record Signal := {
  sig_asset : string;
  kind : SignalKind;
  zScore : option Q;
  sig_price : Q;
  sig_time : Z
}.

Definition zscore (currentPrice mean stddev : Q) : Q :=
  ((currentPrice - mean) / stddev)%Q.

(** Modelled from the spec: the decision of [SignalEngine.evaluate] (source
    absent): the rules of section 4.2, in their order.  An open position is given by
    its side: a NO position was entered on a positive z, a YES position on a
    negative one, so "the sign of z has flipped beyond the threshold" is
    [z <= - entryThreshold] for NO and [entryThreshold <= z] for YES. *)
Definition decide_kind (cfg : Config) (z : Q) (positionOpenForAsset : option Side)
  : SignalKind :=
  match positionOpenForAsset with
  | None =>
      if decide (entryThreshold cfg <= z)%Q then ENTER_NO
      else if decide (z <= - entryThreshold cfg)%Q then ENTER_YES
      else NONE
  | Some side =>
      if decide (Qabs z <= exitThreshold cfg)%Q then EXIT
      else
        match side with
        | NO => if decide (z <= - entryThreshold cfg)%Q then EXIT else NONE
        | YES => if decide (entryThreshold cfg <= z)%Q then EXIT else NONE
        end
  end.

(** Modelled from the spec: [SignalEngine.evaluate] (source absent). *)
Definition evaluate (cfg : Config) (asset : string) (now : Z) (currentPrice : Q)
    (windowStats : WindowStats) (positionOpenForAsset : option Side) : Signal :=
  match windowStats with
  | Insufficient =>
      {| sig_asset := asset; kind := NONE; zScore := None;
         sig_price := currentPrice; sig_time := now |}
  | Stats mean stddev _ =>
      let z := zscore currentPrice mean stddev in
      {| sig_asset := asset; kind := decide_kind cfg z positionOpenForAsset;
         zScore := Some z; sig_price := currentPrice; sig_time := now |}
  end.

Inductive PositionStatus := OPEN | CLOSED.

Record Position := {
  id : nat;
  asset : string;
  side : Side;
  entryPrice : Q;
  size : Q;
  openedAt : Z;
  marketExpiry : Z;
  status : PositionStatus;
  exitPrice : option Q;
  pnl : option Q
}.

(** The collaborators: the order gateway ([None] is [Rejected], a timeout
    included) and the market metadata. *)
Record Env := {
  gw_open : Z -> string -> Side -> Q -> option Q;
  gw_close : Z -> nat -> option Q;
  expiry_of : string -> Z
}.

(** Balance and aggregate statistics.  The specification does not say how the
    balance moves: the stake is taken on open and returned with the pnl on
    close. *)
Record Totals := {
  balance : Q;
  realizedPnl : Q;
  tradesCount : nat;
  winCount : nat;
  lossCount : nat
}.

Record Tracker := {
  positions : list Position;
  lastTradeAt : gmap string Z;
  totals : Totals;
  nextId : nat
}.

Definition directionSign (sd : Side) : Q :=
  match sd with
  | YES => 1%Q
  | NO => (-1)%Q
  end.

Definition realized (p : Position) (px : Q) : Q :=
  ((px - entryPrice p) * size p * directionSign (side p))%Q.

Definition closed (p : Position) (px : Q) : Position := {|
  id := id p; asset := asset p; side := side p; entryPrice := entryPrice p;
  size := size p; openedAt := openedAt p; marketExpiry := marketExpiry p;
  status := CLOSED; exitPrice := Some px; pnl := Some (realized p px)
|}.

Definition settled (acc : Totals) (p : Position) (px : Q) : Totals := {|
  balance := (balance acc + size p + realized p px)%Q;
  realizedPnl := (realizedPnl acc + realized p px)%Q;
  tradesCount := S (tradesCount acc);
  winCount := if decide (0 < realized p px)%Q then S (winCount acc) else winCount acc;
  lossCount := if decide (0 < realized p px)%Q then lossCount acc else S (lossCount acc)
|}.

Definition is_open (p : Position) : bool :=
  match status p with
  | OPEN => true
  | CLOSED => false
  end.

(** Close [p] through the gateway; a rejection leaves it as it is. *)
Definition try_close (env : Env) (now : Z) (p : Position) (acc : Totals)
  : Position * Totals :=
  match gw_close env now (id p) with
  | Some px => (closed p px, settled acc p px)
  | None => (p, acc)
  end.

(** Modelled from the spec: the forced-close condition of [PositionTracker]
    (source absent): [now >= marketExpiry - minCloseBuffer], the invariant of
    section 8, which Scenario D confirms (expiry at T + 130, buffer 120,
    close at T + 10), or [now - openedAt > maxHoldDuration].  Section 4.3
    writes the first condition as [marketExpiry - now < minCloseBuffer]; the
    two differ at the one instant [now = marketExpiry - minCloseBuffer], and
    the invariant and the scenario decide it. *)
Definition due (cfg : Config) (now : Z) (p : Position) : bool :=
  (marketExpiry p - minCloseBuffer cfg <=? now)
  || (maxHoldDuration cfg <? now - openedAt p).

(** Modelled from the spec: the forced-close pass of a tick (source absent):
    every OPEN position that is due is closed through the gateway. *)
Fixpoint force_all (cfg : Config) (env : Env) (now : Z) (ps : list Position)
    (acc : Totals) : list Position * Totals :=
  match ps with
  | [] => ([], acc)
  | p :: ps' =>
      let '(p', acc') :=
        if is_open p && due cfg now p then try_close env now p acc else (p, acc) in
      let '(rest, acc'') := force_all cfg env now ps' acc' in
      (p' :: rest, acc'')
  end.

Definition forcedCloses (cfg : Config) (env : Env) (now : Z) (t : Tracker) : Tracker :=
  let '(ps, acc) := force_all cfg env now (positions t) (totals t) in
  {| positions := ps; lastTradeAt := lastTradeAt t; totals := acc; nextId := nextId t |}.

Definition open_positions (t : Tracker) : nat :=
  length (filter (λ p, is_open p = true) (positions t)).

Definition in_cooldown (cfg : Config) (now : Z) (t : Tracker) (a : string) : bool :=
  match lastTradeAt t !! a with
  | Some last => now - last <? cooldownSeconds cfg
  | None => false
  end.

(** Modelled from the spec: [PositionTracker.onSignal] on ENTER (source
    absent): a no-op at the position cap, inside the cooldown or without the
    balance for the bet; otherwise opens through the gateway and records the
    time of the trade. *)
Definition enter (cfg : Config) (env : Env) (now : Z) (a : string) (sd : Side)
    (t : Tracker) : Tracker :=
  if (maxPositions cfg <=? open_positions t)%nat
     || in_cooldown cfg now t a
     || bool_decide (balance (totals t) < betAmount cfg)%Q
  then t
  else
    match gw_open env now a sd (betAmount cfg) with
    | None => t
    | Some px =>
        let p := {| id := nextId t; asset := a; side := sd; entryPrice := px;
                    size := betAmount cfg; openedAt := now;
                    marketExpiry := expiry_of env a; status := OPEN;
                    exitPrice := None; pnl := None |} in
        let acc := totals t in
        {| positions := positions t ++ [p];
           lastTradeAt := <[a := now]> (lastTradeAt t);
           totals := {| balance := (balance acc - betAmount cfg)%Q;
                        realizedPnl := realizedPnl acc;
                        tradesCount := tradesCount acc;
                        winCount := winCount acc;
                        lossCount := lossCount acc |};
           nextId := S (nextId t) |}
    end.

(** Modelled from the spec: [PositionTracker.onSignal] on EXIT (source
    absent): closes the open position of the asset through the gateway. *)
Definition exit_asset (env : Env) (now : Z) (a : string) (t : Tracker) : Tracker :=
  match list_find (λ p, is_open p = true ∧ asset p = a) (positions t) with
  | None => t
  | Some (i, p) =>
      let '(p', acc) := try_close env now p (totals t) in
      {| positions := <[i := p']> (positions t);
         lastTradeAt := lastTradeAt t;
         totals := acc;
         nextId := nextId t |}
  end.

Definition onSignal (cfg : Config) (env : Env) (now : Z) (t : Tracker)
    (sig : Signal) : Tracker :=
  match kind sig with
  | ENTER_YES => enter cfg env now (sig_asset sig) YES t
  | ENTER_NO => enter cfg env now (sig_asset sig) NO t
  | EXIT => exit_asset env now (sig_asset sig) t
  | NONE => t
  end.

(** Modelled from the spec: one tick of the evaluation loop (source absent):
    the forced closes first, then the signals of the tick, one asset at a
    time. *)
Definition tick (cfg : Config) (env : Env) (now : Z) (signals : list Signal)
    (t : Tracker) : Tracker :=
  foldl (onSignal cfg env now) (forcedCloses cfg env now t) signals.

End Engine.


(** ** Concrete inputs used by the examples below *)
Module Examples.
Import PaperTrading.

Section Examples.
Context {N : Number}.

(** The numbers of the examples, written as the quotients of two integers:
    in [binary64] these are 10, 20, 0.5, 0.75, 0.25 (all of them exact) and
    the doubles nearest to 0.1, 0.3 and 0.7. *)
Definition whole (n : nat) : num := n_of_nat n.
Definition ratio (n d : nat) : num := (n_of_nat n / n_of_nat d)%num.

Definition order_on (m : string) (side : Outcome) : OrderInput := {|
  in_marketId := m;
  in_marketTitle := "BTC up in 15 minutes";
  in_type := BUY;
  in_outcome := side;
  in_amount := whole 10;
  in_entryPrice := ratio 1 2;
  in_shares := whole 20;
  in_exitPrice := None;
  in_pnl := None;
  in_roi := None
|}.

(** First visit, then [reset(1000)]. *)
Definition fresh : Store := reset (whole 1000) (page_load None None).

(** One open NO position with id [a]. *)
Definition one_no : Store := (addOrder (order_on "btc" NO) "a" 0 fresh).2.

(** Five open positions on five distinct markets; 950 left. *)
Definition five_open : Store :=
  run [Trade (AddOrder (order_on "m1" YES) "a" 1000);
       Trade (AddOrder (order_on "m2" YES) "b" 2000);
       Trade (AddOrder (order_on "m3" YES) "c" 3000);
       Trade (AddOrder (order_on "m4" YES) "d" 4000);
       Trade (AddOrder (order_on "m5" YES) "e" 5000)] fresh.

(** A balance of 5 only. *)
Definition poor : Store := reset (whole 5) (page_load None None).

(** The position [a] of [one_no], closed at 0.75. *)
Definition closed_a : Store := closeOrder "a" (ratio 3 4) one_no.

(** Close [a] again, open a new position that draws the same id, close [a]
    once more. *)
Definition retry_ops : list Op :=
  [Trade (CloseOrder "a" (ratio 1 4));
   Trade (AddOrder (order_on "btc" YES) "a" 9);
   Trade (CloseOrder "a" (ratio 1 4))].

(** A short trading session. *)
Definition session : list TradeOp :=
  [AddOrder (order_on "btc" YES) "a" 1000;
   AddOrder (order_on "eth" NO) "b" 2000;
   CloseOrder "a" (ratio 3 4);
   AddOrder (order_on "btc" NO) "c" 3000;
   CloseOrder "b" (ratio 1 4)].

(** An order of [amount] for [shares] shares at [entry]. *)
Definition stake (amount entry shares : num) : OrderInput := {|
  in_marketId := "btc";
  in_marketTitle := "BTC up in 15 minutes";
  in_type := BUY;
  in_outcome := YES;
  in_amount := amount;
  in_entryPrice := entry;
  in_shares := shares;
  in_exitPrice := None;
  in_pnl := None;
  in_roi := None
|}.



(** Three shares bought for 0.1 + 0.2, that is 0.30000000000000004 in
    [binary64]; closed at 0.1 they return 3 * 0.1, the same double. *)
Definition three_shares : OrderInput :=
  stake (ratio 1 10 + ratio 1 5)%num (ratio 1 10) (whole 3).

End Examples.
End Examples.

Module FilterExamples.
Import DynamicFilter.

(** Three markets scored 10, 70 and 30; the market itself is its name. *)
Definition three : list (Scored string Z) :=
  [{| market := "a"; sniping := 10 |};
   {| market := "b"; sniping := 70 |};
   {| market := "c"; sniping := 30 |}].

End FilterExamples.

Module EngineExamples.
Import Engine.

(** A gateway that accepts everything, and one that rejects every close. *)
Definition accepting : Env := {|
  gw_open := λ _ _ _ _, Some (1 # 2);
  gw_close := λ _ _, Some (3 # 5);
  expiry_of := λ _, 130
|}.

Definition rejecting : Env := {|
  gw_open := λ _ _ _ _, None;
  gw_close := λ _ _, None;
  expiry_of := λ _, 130
|}.

(** Scenario D: a position opened at T = 0 on a market that expires at 130. *)
Definition held : Position := {|
  id := 0; asset := "btc"; side := YES; entryPrice := 1 # 2; size := 10;
  openedAt := 0; marketExpiry := 130; status := OPEN;
  exitPrice := None; pnl := None
|}.

Definition start : Tracker := {|
  positions := [];
  lastTradeAt := ∅;
  totals := {| balance := 100; realizedPnl := 0; tradesCount := 0;
               winCount := 0; lossCount := 0 |};
  nextId := 0
|}.

Definition enter_btc : Signal := {|
  sig_asset := "btc"; kind := ENTER_YES; zScore := Some (-3)%Q;
  sig_price := 94; sig_time := 0
|}.

(** The tracker after the tick at T = 0 that opened [held]. *)
Definition tracking : Tracker := tick default_config accepting 0 [enter_btc] start.

(** A window with a single sample. *)
Definition single : RollingWindow :=
  [{| sample_asset := "btc"; sample_price := 100; sample_time := 0 |}].

(** An exit signal on the asset of [held]. *)
Definition exit_btc : Signal := {|
  sig_asset := "btc"; kind := EXIT; zScore := Some (1 # 4);
  sig_price := 201 # 2; sig_time := 10
|}.

End EngineExamples.

(** ** The callers of the filter: components/Dashboard.tsx and
       components/radar/RadarView.tsx *)
Module Callers.
Import DynamicFilter.

Section Callers.
Context {ProcessedMarket SnipabilityScore : Type}.
Variable score : SnipabilityScore -> Z.
(** [market.id], a field of the absent [ProcessedMarket]. *)
Variable market_id : ProcessedMarket -> string.

Abbreviation item := (Scored ProcessedMarket SnipabilityScore).

(** Both pages call [filterSnipableMarkets(scored, 25, 500)]. *)
Definition snipable (scored : list item) : list item :=
  filterSnipableMarkets score scored 25 500.

(** RadarView.loadMarkets, the deduplication: [uniqueMap] holds the ids seen
    so far; an item passes when its id is new, and the id is recorded. *)
Fixpoint dedup (uniqueMap : gset string) (l : list item) : list item :=
  match l with
  | [] => []
  | x :: l' =>
      if decide (market_id (market x) ∈ uniqueMap) then dedup uniqueMap l'
      else x :: dedup ({[ market_id (market x) ]} ∪ uniqueMap) l'
  end.

Definition uniqueFiltered (filtered : list item) : list item := dedup ∅ filtered.

(** What RadarView hands to [setMarkets]. *)
Definition radar_markets (scored : list item) : list item :=
  uniqueFiltered (snipable scored).

(** Dashboard.loadRealMetrics:
    [snipable.length > 0 ? Math.max(...snipable.map(m => m.sniping.score)) : 0]. *)
Definition highestScore (l : list item) : Z :=
  match l with
  | [] => 0
  | m :: rest => foldl Z.max (score_of score m) (score_of score <$> rest)
  end.

End Callers.

(** Dashboard.addLog: the new entry goes first and the list is cut to 100
    entries.  [Date.now()] and the formatted clock time are inputs. *)
Inductive Level := INFO | EXEC | WARN | ERR | MARKET.

Record LogType := {
  log_id : Z;
  log_timestamp : string;
  level : Level;
  message : string
}.

Definition addLog (now : Z) (clock : string) (lv : Level) (msg : string)
    (prev : list LogType) : list LogType :=
  take 100 ({| log_id := now; log_timestamp := clock; level := lv; message := msg |}
            :: prev).

Definition addLogs (entries : list LogType) (prev : list LogType) : list LogType :=
  foldl (λ logs e, addLog (log_id e) (log_timestamp e) (level e) (message e) logs)
        prev entries.

End Callers.

(** ** components/ToastNotification.tsx *)
Module ToastNotification.

(** The [useToast] hook of the dashboard: the list of toasts and its two updates.  The id is drawn by
    [Math.random]. *)
Inductive ToastType := success | error | warning | info | market.

Record Toast := {
  toast_id : string;
  toast_type : ToastType;
  title : string;
  toast_message : string;
  duration : option Z
}.

(** [Omit<Toast, "id">]. *)
Record ToastInput := {
  in_type : ToastType;
  in_title : string;
  in_message : string;
  in_duration : option Z
}.

Definition addToast (toast : ToastInput) (rnd_id : string) (prev : list Toast)
  : list Toast :=
  prev ++ [{| toast_id := rnd_id; toast_type := in_type toast;
              title := in_title toast; toast_message := in_message toast;
              duration := in_duration toast |}].

Definition removeToast (i : string) (prev : list Toast) : list Toast :=
  filter (λ t, toast_id t <> i) prev.

End ToastNotification.


(** ** The pages that use the store *)
Module Pages.
Import PaperTrading.

Inductive Label := WIN | LOSS.

Section Pages.
Context {N : Number}.

(** The orders page: [activeOrders], [historyOrders] and the WIN / LOSS label
    of a history row, [(order.pnl || 0) >= 0 ? 'WIN' : 'LOSS']. *)
Definition activeOrders (orders : list PaperOrder) : list PaperOrder :=
  filter (λ o, status o = OPEN) orders.

Definition historyOrders (orders : list PaperOrder) : list PaperOrder :=
  filter (λ o, status o <> OPEN) orders.

Definition label (order : PaperOrder) : Label :=
  if (n_zero <=? pnl_or_0 order)%num then WIN else LOSS.

(** Whether [closeOrder]'s win count takes the order: [(o.pnl || 0) > 0]. *)
Definition counted_as_win (order : PaperOrder) : bool :=
  (n_zero <? pnl_or_0 order)%num.

(** The settings page: [handleSaveProfile] stores a copy of the current
    profile with the typed name and [active: true]; [handleReset] resets when
    the [confirm] dialog is accepted. *)
Definition handleSaveProfile (usernameInput : string) (s : Store) : Store :=
  let current := getProfile s in
  let updated := {|
    username := usernameInput;
    initialBalance := initialBalance current;
    currentBalance := currentBalance current;
    totalPnL := totalPnL current;
    winRate := winRate current;
    tradesCount := tradesCount current;
    active := true;
    autoFollow := autoFollow current |} in
  saveProfile updated s.

Definition handleReset (confirmed : bool) (balanceInput : num) (s : Store) : Store :=
  if confirmed then reset balanceInput s else s.

(** What a sequence of trades may contain for the balance to stay
    non-negative, in any arithmetic: finite amounts, finite numbers of
    shares and finite exit prices, none of the last two negative. *)
Definition proper_trade (t : TradeOp) : Prop :=
  match t with
  | AddOrder order _ _ =>
      n_finite (in_amount order) = true /\
      n_nonneg (in_shares order) /\ n_finite (in_shares order) = true
  | CloseOrder _ px => n_nonneg px /\ n_finite px = true
  end.

Definition proper_order (o : PaperOrder) : Prop :=
  n_nonneg (shares o) /\ n_finite (shares o) = true.

End Pages.

(** The same for exact numbers, where every number is finite: no negative
    number of shares, no negative exit price. *)
Definition sane_trade (t : TradeOp (N := exact)) : Prop :=
  match t with
  | AddOrder order _ _ => (0 <= in_shares order)%Q
  | CloseOrder _ px => (0 <= px)%Q
  end.

End Pages.

(** ** The doubles of the code: signs and order *)
Module Binary64Props.
Import SpecFloat.

(** Shifting and rounding keep a mantissa that is not negative so. *)
Lemma shr_1_nonneg mrs : 0 <= shr_m mrs -> 0 <= shr_m (shr_1 mrs).
Proof.
  destruct mrs as [m r s]. cbn.
  destruct m as [| p | p]; cbn; [lia | | lia].
  destruct p; cbn; lia.
Qed.

Lemma iter_shr_1_nonneg p mrs :
  0 <= shr_m mrs -> 0 <= shr_m (iter_pos shr_1 p mrs).
Proof.
  revert mrs. induction p as [p IH | p IH |]; intros mrs H; cbn.
  - apply IH, IH, shr_1_nonneg, H.
  - apply IH, IH, H.
  - apply shr_1_nonneg, H.
Qed.

Lemma shr_fexp_nonneg prec emax m e l :
  0 <= m -> 0 <= shr_m (shr_fexp prec emax m e l).1.
Proof.
  intros H. unfold shr_fexp, shr.
  assert (H0 : 0 <= shr_m (shr_record_of_loc m l))
    by (destruct l as [| []]; exact H).
  destruct (fexp prec emax (Zdigits2 m + e) - e); cbn; try exact H0.
  apply iter_shr_1_nonneg, H0.
Qed.

Lemma round_nearest_even_nonneg m l : 0 <= m -> 0 <= round_nearest_even m l.
Proof.
  intros H. destruct l as [| []]; cbn; try lia.
  destruct (Z.even m); lia.
Qed.

(** Rounding a non-negative mantissa gives a zero, a finite number or an
    infinity of the sign asked for. *)
Lemma binary_round_aux_sign prec emax sx mx ex lx :
  0 <= mx ->
  match binary_round_aux prec emax sx mx ex lx with
  | S754_zero s | S754_infinity s | S754_finite s _ _ => s = sx
  | S754_nan => False
  end.
Proof.
  intros H. unfold binary_round_aux.
  pose proof (shr_fexp_nonneg prec emax mx ex lx H) as H1.
  destruct (shr_fexp prec emax mx ex lx) as [mrs' e'].
  cbn [fst] in H1.
  pose proof (shr_fexp_nonneg prec emax _ e' loc_Exact
                (round_nearest_even_nonneg _ (loc_of_shr_record mrs') H1)) as H2.
  destruct (shr_fexp prec emax _ e' loc_Exact) as [mrs'' e''].
  cbn [fst] in H2.
  destruct (shr_m mrs'') as [| m | m]; [reflexivity | | lia].
  destruct (e'' <=? emax - prec); reflexivity.
Qed.

Lemma binary_round_aux_nonneg prec emax mx ex lx :
  0 <= mx -> sf_nonneg (binary_round_aux prec emax false mx ex lx) = true.
Proof.
  intros H. pose proof (binary_round_aux_sign prec emax false mx ex lx H) as Hs.
  destruct (binary_round_aux prec emax false mx ex lx); cbn; subst; tauto.
Qed.

Lemma binary_normalize_nonneg prec emax m e :
  0 <= m -> sf_nonneg (binary_normalize prec emax m e false) = true.
Proof.
  intros H. destruct m as [| p | p]; [reflexivity | | lia].
  cbn. unfold binary_round.
  destruct (shl_align _ _ _) as [mz ez].
  apply binary_round_aux_nonneg. lia.
Qed.

Lemma SFadd_nonneg prec emax x y :
  sf_nonneg x = true -> sf_nonneg y = true -> sf_nonneg (SFadd prec emax x y) = true.
Proof.
  destruct x as [sx | sx | | sx mx ex], y as [sy | sy | | sy my ey]; cbn;
    try discriminate; try (intros; assumption); try reflexivity.
  - destruct sx, sy; reflexivity.
  - destruct sx, sy; try discriminate; reflexivity.
  - destruct sx, sy; try discriminate. intros _ _.
    apply binary_normalize_nonneg. cbn. lia.
Qed.

Lemma SFmul_nonneg prec emax x y :
  sf_nonneg x = true -> sf_finite x = true ->
  sf_nonneg y = true -> sf_finite y = true ->
  sf_nonneg (SFmul prec emax x y) = true.
Proof.
  destruct x as [sx | sx | | sx mx ex], y as [sy | sy | | sy my ey]; cbn;
    try discriminate; try reflexivity.
  destruct sx, sy; try discriminate. intros _ _ _ _.
  apply binary_round_aux_nonneg. lia.
Qed.

Lemma digits2_pos_bounds (m : positive) :
  2 ^ (Z.pos (digits2_pos m) - 1) <= Z.pos m < 2 ^ Z.pos (digits2_pos m).
Proof.
  induction m as [m IH | m IH |]; cbn [digits2_pos].
  - rewrite Pos2Z.inj_succ, Z.pow_succ_r by lia.
    replace (Z.succ (Z.pos (digits2_pos m)) - 1) with (Z.succ (Z.pos (digits2_pos m) - 1))
      by lia.
    rewrite Z.pow_succ_r by lia. lia.
  - rewrite Pos2Z.inj_succ, Z.pow_succ_r by lia.
    replace (Z.succ (Z.pos (digits2_pos m)) - 1) with (Z.succ (Z.pos (digits2_pos m) - 1))
      by lia.
    rewrite Z.pow_succ_r by lia. lia.
  - cbn. lia.
Qed.

Lemma iter_xO_val (m d : positive) :
  Z.pos (Pos.iter xO m d) = Z.pos m * 2 ^ Z.pos d.
Proof.
  induction d as [| d IH] using Pos.peano_ind.
  - cbn. lia.
  - rewrite Pos.iter_succ, Pos2Z.inj_succ, Z.pow_succ_r by lia.
    rewrite Pos2Z.inj_xO, IH. lia.
Qed.

Lemma shl_align_val (mx : positive) (ex ez : Z) :
  ez <= ex -> Z.pos (shl_align mx ex ez).1 = Z.pos mx * 2 ^ (ex - ez).
Proof.
  intros Hle. unfold shl_align.
  destruct (ez - ex) as [| d | d] eqn:Hd; cbn [fst].
  - replace (ex - ez) with 0 by lia. cbn. lia.
  - lia.
  - rewrite iter_xO_val. f_equal. f_equal. lia.
Qed.

(** Of two valid positive doubles, the one with the larger exponent is the
    larger. *)
Lemma larger_exponent prec emax mx ex my ey :
  bounded prec emax mx ex = true ->
  bounded prec emax my ey = true ->
  ey < ex ->
  Z.pos my < Z.pos mx * 2 ^ (ex - ey).
Proof.
  unfold bounded, canonical_mantissa, fexp.
  intros [Hx _]%andb_true_iff [Hy _]%andb_true_iff Hlt.
  apply Z.eqb_eq in Hx, Hy.
  pose proof (digits2_pos_bounds mx) as [Hmx _].
  pose proof (digits2_pos_bounds my) as [_ Hmy].
  set (dx := Z.pos (digits2_pos mx)) in *.
  set (dy := Z.pos (digits2_pos my)) in *.
  set (lo := SpecFloat.emin prec emax) in *.
  assert (Hdx : dx = prec) by lia.
  assert (Hdy : dy <= prec) by lia.
  assert (H1 : 1 <= dx) by (subst dx; lia).
  assert (Hpow : 2 ^ dy <= 2 ^ prec) by (apply Z.pow_le_mono_r; lia).
  assert (Hshift : 2 ^ prec <= 2 ^ (dx - 1) * 2 ^ (ex - ey)).
  { rewrite <- Z.pow_add_r by lia. apply Z.pow_le_mono_r; lia. }
  assert (Hmul : 2 ^ (dx - 1) * 2 ^ (ex - ey) <= Z.pos mx * 2 ^ (ex - ey)).
  { apply Z.mul_le_mono_nonneg_r; [apply Z.pow_nonneg; lia | exact Hmx]. }
  lia.
Qed.

Lemma SFsub_nonneg prec emax x y :
  valid_binary prec emax x = true ->
  valid_binary prec emax y = true ->
  sf_nonneg x = true -> sf_finite y = true ->
  SFltb x y = false ->
  sf_nonneg (SFsub prec emax x y) = true.
Proof.
  unfold SFltb.
  destruct x as [sx | sx | | sx mx ex], y as [sy | sy | | sy my ey];
    cbn [sf_nonneg sf_finite SFsub SFcompare valid_binary];
    intros Hvx Hvy Hx Hy Hlt; try discriminate; try assumption.
  - destruct sx, sy; reflexivity.
  - destruct sy; [reflexivity | discriminate].
  - destruct sx; [discriminate |]. clear Hx.
    apply binary_normalize_nonneg. cbn [cond_Zopp].
    assert (Hzx : Z.min ex ey <= ex) by lia.
    assert (Hzy : Z.min ex ey <= ey) by lia.
    rewrite (shl_align_val mx ex _ Hzx), (shl_align_val my ey _ Hzy).
    destruct sy; cbn [cond_Zopp]; [lia |].
    destruct (Z.compare_spec ex ey) as [Heq | Hl | Hg]; [| discriminate |].
    + subst ey. rewrite Z.min_id, Z.sub_diag. cbn.
      change (Pos.compare_cont Eq mx my) with (mx ?= my)%positive in Hlt.
      destruct (Pos.compare_spec mx my); try discriminate; lia.
    + pose proof (larger_exponent prec emax mx ex my ey Hvx Hvy Hg).
      replace (Z.min ex ey) with ey by lia. rewrite Z.sub_diag. cbn [Z.pow]. lia.
Qed.

Lemma leb_zero_nonneg (x : PrimFloat.float) :
  PrimFloat.leb PrimFloat.zero x = sf_nonneg (FloatOps.Prim2SF x).
Proof.
  rewrite FloatAxioms.leb_spec. unfold SFleb.
  change (FloatOps.Prim2SF PrimFloat.zero) with (S754_zero false).
  destruct (FloatOps.Prim2SF x) as [s | s | | s m e]; cbn; try reflexivity;
    destruct s; reflexivity.
Qed.


Lemma float_finite_sf (x : PrimFloat.float) :
  float_finite x = sf_finite (FloatOps.Prim2SF x).
Proof. reflexivity. Qed.

(** The sign of a double that JSON keeps, against its exact value. *)
Lemma mantissa_val_pos (m : positive) (e : Z) :
  (0 < (if 0 <=? e then inject_Z (Z.pos m * 2 ^ e)
        else Z.pos m # Z.to_pos (2 ^ (- e))))%Q.
Proof.
  destruct (0 <=? e) eqn:He.
  - apply Z.leb_le in He. change 0%Q with (inject_Z 0). rewrite <- Zlt_Qlt.
    apply Z.mul_pos_pos; [lia | apply Z.pow_pos_nonneg; lia].
  - unfold Qlt. cbn. lia.
Qed.

Lemma leb_zero_val (x : PrimFloat.float) :
  float_finite x = true ->
  (PrimFloat.leb PrimFloat.zero x = true <-> (0 <= float_val x)%Q) /\
  (PrimFloat.ltb PrimFloat.zero x = true <-> (0 < float_val x)%Q).
Proof.
  rewrite FloatAxioms.leb_spec, FloatAxioms.ltb_spec.
  unfold SpecFloat.SFleb, SpecFloat.SFltb, float_finite, float_val.
  change (FloatOps.Prim2SF PrimFloat.zero) with (SpecFloat.S754_zero false).
  destruct (FloatOps.Prim2SF x) as [s | s | | s m e]; try discriminate; intros _.
  - cbn. split; split.
    + intros _. apply Qle_refl.
    + reflexivity.
    + discriminate.
    + intros H. exfalso. apply (Qlt_irrefl 0), H.
  - pose proof (mantissa_val_pos m e) as Hq. cbn [SpecFloat.SFcompare].
    set (q := if 0 <=? e then _ else _) in *.
    destruct s; split; split; try discriminate; try reflexivity; intros H; lra.
Qed.

Lemma float_json_finite (v : PrimFloat.float) :
  float_finite (default PrimFloat.zero (float_json v)) = true.
Proof.
  unfold float_json.
  destruct (FloatOps.Prim2SF v) as [s | s | | s m e] eqn:Hv; cbn [from_option id];
    try reflexivity.
  change (float_finite v = true). unfold float_finite. rewrite Hv. reflexivity.
Qed.

Lemma ltb_zero_json (v : PrimFloat.float) :
  PrimFloat.ltb PrimFloat.zero v = true ->
  (0 <= float_val (default PrimFloat.zero (float_json v)))%Q.
Proof.
  intros Hv. rewrite FloatAxioms.ltb_spec in Hv. unfold SpecFloat.SFltb in Hv.
  change (FloatOps.Prim2SF PrimFloat.zero) with (SpecFloat.S754_zero false) in Hv.
  unfold float_json.
  destruct (FloatOps.Prim2SF v) as [s | s | | s m e] eqn:Hsf; cbn [from_option id].
  - vm_compute. discriminate.
  - vm_compute. discriminate.
  - discriminate Hv.
  - change (0 <= float_val v)%Q. unfold float_val. rewrite Hsf.
    cbn [SpecFloat.SFcompare] in Hv. destruct s; [discriminate Hv |].
    apply Qlt_le_weak, mantissa_val_pos.
Qed.


(** Subtraction, multiplication and addition of doubles go along with their
    order, as far as the balance needs it. *)
#[global] Instance binary64_order : NumberOrder binary64.
Proof.
  split; unfold n_nonneg; cbn [n_le n_lt n_zero n_finite n_sub n_mul n_add binary64 num].
  - intros a b Ha Hb Hlt.
    rewrite leb_zero_nonneg in *. rewrite float_finite_sf in Hb.
    rewrite FloatAxioms.ltb_spec in Hlt. rewrite FloatAxioms.sub_spec.
    apply SFsub_nonneg; auto using FloatAxioms.Prim2SF_valid.
  - intros a b Ha Haf Hb Hbf.
    rewrite leb_zero_nonneg in *. rewrite float_finite_sf in *.
    rewrite FloatAxioms.mul_spec. apply SFmul_nonneg; assumption.
  - intros a b Ha Hb.
    rewrite leb_zero_nonneg in *. rewrite FloatAxioms.add_spec.
    apply SFadd_nonneg; assumption.
Qed.

#[global] Instance exact_order : NumberOrder exact.
Proof.
  split; unfold n_nonneg; cbn [n_le n_lt n_zero n_finite n_sub n_mul n_add exact num].
  - intros a b Ha _ Hlt. apply Qle_bool_iff in Ha. apply Qle_bool_iff.
    unfold Qltb in Hlt. apply negb_false_iff, Qle_bool_iff in Hlt. lra.
  - intros a b Ha _ Hb _. apply Qle_bool_iff in Ha, Hb. apply Qle_bool_iff.
    apply Qmult_le_0_compat; assumption.
  - intros a b Ha Hb. apply Qle_bool_iff in Ha, Hb. apply Qle_bool_iff. lra.
Qed.

End Binary64Props.

(** ** Properties of the paper-trading store *)
Module PaperTradingProps.
Import PaperTrading.

Section Props.
Context {N : Number}.

Lemma addOrder_accepts order rnd_id now s :
  (currentBalance (getProfile s) <? in_amount order)%num = false ->
  (addOrder order rnd_id now s).1 = Some (mkOrder order rnd_id now) /\
  getOrders (addOrder order rnd_id now s).2 = mkOrder order rnd_id now :: getOrders s /\
  currentBalance (getProfile (addOrder order rnd_id now s).2)
  = (currentBalance (getProfile s) - in_amount order)%num.
Proof.
  intros Hbal. unfold addOrder. rewrite Hbal. cbn. repeat split; reflexivity.
Qed.

(** C4. With a balance strictly below the requested amount, [addOrder]
    returns [null] and the whole state (stored orders, stored profile with its
    balance and counters, and the module object) is the one it started from. *)
Theorem addOrder_insufficient_balance_unchanged order rnd_id now s :
  (currentBalance (getProfile s) <? in_amount order)%num = true ->
  addOrder order rnd_id now s = (None, s).
Proof.
  intros Hlt. unfold addOrder. rewrite Hlt. reflexivity.
Qed.

(** C1 (as amended). Closing an open position marks it CLOSED and records
    the exit price and pnl = shares * exitPrice - amount: the product first
    and then the difference, each as the arithmetic of the store computes and
    rounds it, and both as JSON keeps them.  Neither the outcome nor the
    entry price enters: any order with the same shares and amount records
    the same pnl (no direction sign). *)
Theorem closeOrder_records_pnl orderId px s i o :
  list_find (λ x, id x = orderId) (getOrders s) = Some (i, o) ->
  status o = OPEN ->
  exists o',
    getOrders (closeOrder orderId px s) !! i = Some o' /\
    status o' = CLOSED /\
    exitPrice o' = n_json px /\
    outcome o' = outcome o /\
    pnl o' = n_json (shares o * px - amount o)%num /\
    (forall o2, shares o2 = shares o -> amount o2 = amount o ->
                pnl (closed_order o2 px) = pnl o').
Proof.
  intros Hfind Hopen.
  exists (closed_order o px).
  unfold closeOrder. rewrite Hfind, Hopen. cbn.
  apply list_find_Some in Hfind as (Hi & _ & _).
  split.
  - apply list_lookup_insert_eq. eapply lookup_lt_Some, Hi.
  - repeat split. intros o2 Hsh Ham. rewrite Hsh, Ham. reflexivity.
Qed.

(** C2 (as amended). [addOrder] knows no limit on the number of open
    positions: whenever the balance covers the amount the order is accepted
    and there is one more open position than before. *)
Theorem addOrder_no_position_cap order rnd_id now s :
  (currentBalance (getProfile s) <? in_amount order)%num = false ->
  (addOrder order rnd_id now s).1 = Some (mkOrder order rnd_id now) /\
  open_count (addOrder order rnd_id now s).2 = S (open_count s).
Proof.
  intros Hbal.
  destruct (addOrder_accepts order rnd_id now s Hbal) as (Hr & Hos & _).
  split; [exact Hr |].
  unfold open_count. rewrite Hos.
  rewrite filter_cons_True by reflexivity. reflexivity.
Qed.


(** *** Closed positions are final *)

Lemma unchanged_or_closed_trans o1 o2 o3 :
  unchanged_or_closed o1 o2 -> unchanged_or_closed o2 o3 ->
  unchanged_or_closed o1 o3.
Proof.
  intros [-> | (Hopen & px & ->)] H23; [exact H23 |].
  destruct H23 as [-> | (Habs & _)].
  - right. eauto.
  - discriminate Habs.
Qed.

Lemma closeOrder_lookup orderId px s j o :
  getOrders s !! j = Some o ->
  exists o', getOrders (closeOrder orderId px s) !! j = Some o' /\
             unchanged_or_closed o o'.
Proof.
  intros Hj. unfold closeOrder.
  destruct (list_find _ (getOrders s)) as [[i x] |] eqn:Hfind;
    [| exists o; split; [exact Hj | left; reflexivity]].
  destruct (status x) eqn:Hst;
    try (exists o; split; [exact Hj | left; reflexivity]).
  cbn. apply list_find_Some in Hfind as (Hi & _ & _).
  destruct (decide (i = j)) as [-> | Hne].
  - assert (x = o) as -> by congruence.
    exists (closed_order o px). split.
    + apply list_lookup_insert_eq. eapply lookup_lt_Some, Hj.
    + right. eauto.
  - exists o. split; [| left; reflexivity].
    rewrite list_lookup_insert_ne by exact Hne. exact Hj.
Qed.

Lemma exec_lookup op s i o :
  getOrders s !! i = Some o ->
  match track op s i with
  | Some j => exists o', getOrders (exec op s) !! j = Some o' /\
                         unchanged_or_closed o o'
  | None => is_reset op = true
  end.
Proof.
  intros Hi. destruct op as [[order rnd_id now | orderId px] | balance | profile]; cbn.
  - unfold addOrder. destruct (n_lt _ _); cbn;
      exists o; (split; [exact Hi | left; reflexivity]).
  - apply closeOrder_lookup, Hi.
  - reflexivity.
  - exists o. split; [exact Hi | left; reflexivity].
Qed.

(** C3. Follow the position stored at index [i] through any sequence of
    store operations.  Unless a [reset] wiped the whole list, it is still
    there, and it is either the very same record or, if it was OPEN, its
    closed form: a CLOSED (or CANCELLED) position keeps every field, its
    pnl included, and the only change of status is OPEN to CLOSED. *)
Theorem closed_position_is_final ops s i o :
  getOrders s !! i = Some o ->
  match track_all ops s i with
  | Some j =>
      exists o', getOrders (run ops s) !! j = Some o' /\
                 unchanged_or_closed o o' /\
                 (status o <> OPEN -> o' = o)
  | None => existsb is_reset ops = true
  end.
Proof.
  revert s i o. induction ops as [| op ops IH]; intros s i o Hi; cbn.
  - exists o. split; [exact Hi |]. split; [left |]; reflexivity.
  - pose proof (exec_lookup op s i o Hi) as Hstep.
    destruct (track op s i) as [j |]; [| rewrite Hstep; reflexivity].
    destruct Hstep as (o1 & Hj & H01).
    specialize (IH (exec op s) j o1 Hj).
    destruct (track_all ops (exec op s) j) as [k |].
    + destruct IH as (o' & Hk & H1 & _).
      exists o'. split; [exact Hk |].
      assert (H : unchanged_or_closed o o')
        by (eapply unchanged_or_closed_trans; eassumption).
      split; [exact H |].
      intros Hnot. destruct H as [-> | (Hopen & _)]; [reflexivity | contradiction].
    + rewrite IH. apply orb_true_r.
Qed.

(** *** The accounting invariant *)














End Props.



(** *** The theorems at work on the doubles of the code *)

#[local] Existing Instance binary64.

Lemma addOrder_insufficient_balance_unchanged_witness :
  addOrder (N := binary64) (Examples.order_on "btc" YES) "a" 7 Examples.poor
  = (None, Examples.poor).
Proof.
  apply (addOrder_insufficient_balance_unchanged (N := binary64)
           (Examples.order_on "btc" YES) "a" 7 Examples.poor).
  reflexivity.
Defined.

Lemma closeOrder_records_pnl_witness :
  exists o',
    getOrders (closeOrder (N := binary64) "a" (Examples.ratio 3 4) Examples.one_no)
      !! 0%nat = Some o' /\
    pnl o' = Some (Examples.whole 5).
Proof.
  destruct (closeOrder_records_pnl (N := binary64) "a" (Examples.ratio 3 4)
              Examples.one_no 0%nat (mkOrder (Examples.order_on "btc" NO) "a" 0))
    as (o' & Hl & _ & _ & _ & Hp & _).
  - reflexivity.
  - reflexivity.
  - exists o'. split; [exact Hl | exact Hp].
Defined.

(** C1, counterexample. A NO position bought for 10 (20 shares at 0.5) and
    closed at 0.75 records pnl = 20 * 0.75 - 10 = 5, while
    (exitPrice - entryPrice) * size * directionSign = 0.25 * 20 * (-1) = -5. *)
Lemma closeOrder_pnl_sign_counterexample :
  exists o',
    getOrders (closeOrder (N := binary64) "a" (Examples.ratio 3 4) Examples.one_no)
      !! 0%nat = Some o' /\
    status o' = CLOSED /\
    outcome o' = NO /\
    (n_val (pnl_or_0 o') == 5)%Q /\
    (signed_pnl o' (Examples.ratio 3 4) == -5)%Q /\
    ~ (n_val (pnl_or_0 o') == signed_pnl o' (Examples.ratio 3 4))%Q.
Proof.
  eexists. split; [reflexivity |].
  repeat split; try reflexivity.
  vm_compute. discriminate.
Qed.

(** The pnl is not the price difference times the shares either, even for a
    stake of shares * entryPrice: 25 shares at 0.4 cost 10; closed at 0.7 the
    order records 25 * 0.7 - 10 = 7.5, while (0.7 - 0.4) * 25 is
    7.4999999999999982 in the arithmetic of the code. *)
Example closeOrder_pnl_not_price_difference :
  let entry := Examples.ratio (N := binary64) 2 5 in
  let px := Examples.ratio (N := binary64) 7 10 in
  let o := mkOrder (Examples.stake (Examples.whole 10) entry (Examples.whole 25)) "a" 0 in
  (shares o * entryPrice o)%num = amount o /\
  pnl (closed_order o px) = Some (Examples.ratio 15 2) /\
  PrimFloat.eqb ((px - entryPrice o) * shares o)%num (Examples.ratio 15 2) = false.
Proof.
  cbv zeta. repeat split; reflexivity.
Qed.

Lemma addOrder_no_position_cap_witness :
  open_count (addOrder (N := binary64) (Examples.order_on "m6" YES) "f" 6000
                Examples.five_open).2
  = S (open_count (N := binary64) Examples.five_open).
Proof.
  apply (addOrder_no_position_cap (N := binary64) (Examples.order_on "m6" YES)
           "f" 6000 Examples.five_open).
  reflexivity.
Defined.

(** C2, counterexample. Five positions are open on five markets and 950 are
    left; an order of 10 on a sixth market is accepted and six are open. *)
Lemma addOrder_sixth_position_counterexample :
  open_count (N := binary64) Examples.five_open = 5%nat /\
  (n_val (in_amount (Examples.order_on "m6" YES))
     <= n_val (currentBalance (getProfile (N := binary64) Examples.five_open)))%Q /\
  Forall (λ o, marketId o <> "m6") (getOrders (N := binary64) Examples.five_open) /\
  (addOrder (N := binary64) (Examples.order_on "m6" YES) "f" 6000
     Examples.five_open).1 <> None /\
  open_count (addOrder (N := binary64) (Examples.order_on "m6" YES) "f" 6000
                Examples.five_open).2
  = 6%nat.
Proof.
  split; [reflexivity |].
  split; [vm_compute; discriminate |].
  split; [repeat constructor; discriminate |].
  split; [discriminate | reflexivity].
Qed.



Lemma closed_position_is_final_witness :
  getOrders (run (N := binary64) Examples.retry_ops Examples.closed_a) !! 1%nat
  = Some (closed_order (mkOrder (Examples.order_on "btc" NO) "a" 0)
            (Examples.ratio 3 4)).
Proof.
  pose proof (closed_position_is_final (N := binary64) Examples.retry_ops
                Examples.closed_a 0%nat
                (closed_order (mkOrder (Examples.order_on "btc" NO) "a" 0)
                   (Examples.ratio 3 4))
                eq_refl) as H.
  change (track_all Examples.retry_ops Examples.closed_a 0) with (Some 1%nat) in H.
  destruct H as (o' & Hk & _ & Hfix).
  rewrite Hk. f_equal. apply Hfix. discriminate.
Defined.



(** Reachability is what the second form rests on.  With orders but no
    profile in [localStorage] (a state the store itself never produces),
    [closeOrder] updates the module object, and [reset] copies its [totalPnL]
    into the new profile. *)
Example reset_copies_module_object :
  let s0 := page_load (N := binary64) None
              (Some [mkOrder (Examples.order_on "btc" YES) "a" 0]) in
  let s := reset (Examples.whole 1000) (closeOrder "a" (Examples.ratio 3 4) s0) in
  getOrders s = [] /\
  (n_val (totalPnL (getProfile s)) == 5)%Q /\
  balance_accounted s /\
  ~ balance_from_pnl s.
Proof.
  cbv zeta. split; [reflexivity |]. split; [reflexivity |].
  split; [reflexivity |]. vm_compute. discriminate.
Qed.

End PaperTradingProps.

(** ** Properties of the market filter *)
Module DynamicFilterProps.
Import DynamicFilter.

Section Filter.
Context {ProcessedMarket SnipabilityScore : Type}.
Variable score : SnipabilityScore -> Z.

Abbreviation item := (Scored ProcessedMarket SnipabilityScore).
Abbreviation score_of := (score_of score).
Abbreviation desc := (desc score).

Lemma insert_desc_perm (x : item) l : insert_desc score x l ≡ₚ x :: l.
Proof.
  induction l as [| y l IH]; [reflexivity |]. cbn.
  destruct (score_of y <=? score_of x); [reflexivity |].
  rewrite IH. apply Permutation_swap.
Qed.

Lemma sort_desc_perm (l : list item) : sort_desc score l ≡ₚ l.
Proof.
  induction l as [| x l IH]; [reflexivity |]. cbn.
  rewrite insert_desc_perm. f_equiv. exact IH.
Qed.

Lemma insert_desc_sorted (x : item) l :
  StronglySorted desc l -> StronglySorted desc (insert_desc score x l).
Proof.
  induction 1 as [| y l Hl IH Hy]; cbn; [repeat constructor |].
  destruct (score_of y <=? score_of x) eqn:Hle.
  - apply Z.leb_le in Hle. constructor; [constructor; assumption |].
    constructor; [exact Hle |].
    eapply Forall_impl; [exact Hy |]. unfold DynamicFilter.desc. cbn. lia.
  - apply Z.leb_gt in Hle. constructor; [exact IH |].
    rewrite insert_desc_perm. constructor; [| exact Hy].
    unfold DynamicFilter.desc. lia.
Qed.

Lemma sort_desc_sorted (l : list item) : StronglySorted desc (sort_desc score l).
Proof.
  induction l as [| x l IH]; cbn; [constructor | apply insert_desc_sorted, IH].
Qed.

Lemma filter_none {A} (P : A -> Prop) `{!forall x, Decision (P x)} (l : list A) :
  Forall (λ x, ~ P x) l -> filter P l = [].
Proof.
  induction 1 as [| x l Hx _ IH]; [reflexivity |].
  rewrite filter_cons_False by exact Hx. exact IH.
Qed.

(** On a list in descending order, keeping the scores of at least [t] keeps a
    prefix. *)
Lemma filter_threshold_prefix (t : Z) (l : list item) :
  StronglySorted desc l ->
  filter (λ m, t <= score_of m) l `prefix_of` l.
Proof.
  induction 1 as [| y l Hl IH Hy]; [reflexivity |].
  rewrite filter_cons. case_decide as Ht.
  - apply prefix_cons, IH.
  - rewrite filter_none; [apply prefix_nil |].
    eapply Forall_impl; [exact Hy |]. unfold DynamicFilter.desc. cbn. lia.
Qed.

Lemma slice0_prefix {A} (e : Z) (l : list A) : slice0 e l `prefix_of` l.
Proof. unfold slice0. destruct (e <? 0); apply prefix_take. Qed.

Lemma slice0_length {A} (e : Z) (l : list A) : 0 <= e -> len (slice0 e l) <= e.
Proof.
  intros He. unfold slice0, len.
  destruct (e <? 0) eqn:Hneg; [apply Z.ltb_lt in Hneg; lia |].
  rewrite length_take. lia.
Qed.

Lemma scan_prefix lowest lastResort targetMin targetMax (sorted : list item)
    thresholds result :
  StronglySorted desc sorted ->
  scan score lowest lastResort targetMin targetMax sorted thresholds = Some result ->
  result `prefix_of` sorted.
Proof.
  intros Hs. induction thresholds as [| t rest IH]; cbn; [discriminate |].
  pose proof (filter_threshold_prefix t sorted Hs) as Hp.
  repeat (case_match; try exact IH); intros [= <-]; try exact Hp.
  etrans; [apply slice0_prefix | exact Hp].
Qed.

Lemma scan_length lowest lastResort targetMin targetMax (sorted : list item)
    thresholds result :
  0 <= targetMax ->
  scan score lowest lastResort targetMin targetMax sorted thresholds = Some result ->
  len result <= targetMax.
Proof.
  intros Hmax. induction thresholds as [| t rest IH]; cbn; [discriminate |].
  destruct (_ && _) eqn:Hperfect.
  { intros [= <-]. apply andb_true_iff in Hperfect as [_ H]. lia. }
  destruct (targetMax <? _) eqn:Hmany.
  { intros [= <-]. apply slice0_length, Hmax. }
  apply Z.ltb_ge in Hmany.
  repeat (case_match; try exact IH); intros [= <-]; exact Hmany.
Qed.

Lemma filter_with_prefix thresholds lastResort fallbackTop (markets : list item)
    targetMin targetMax :
  filter_with score thresholds lastResort fallbackTop markets targetMin targetMax
    `prefix_of` sort_desc score markets.
Proof.
  unfold filter_with. destruct (scan _ _ _ _ _ _ _) as [result |] eqn:Hscan.
  - eapply scan_prefix; [apply sort_desc_sorted | exact Hscan].
  - apply slice0_prefix.
Qed.

Lemma filter_with_length thresholds lastResort fallbackTop (markets : list item)
    targetMin targetMax :
  0 <= fallbackTop <= targetMax ->
  len (filter_with score thresholds lastResort fallbackTop markets targetMin targetMax)
    <= targetMax.
Proof.
  intros Hfb. unfold filter_with.
  destruct (scan _ _ _ _ _ _ _) as [result |] eqn:Hscan.
  - eapply scan_length; [lia | exact Hscan].
  - etrans; [apply slice0_length |]; unfold len; lia.
Qed.

(** C10. With the default bounds, both versions of [filterSnipableMarkets]
    return a prefix of the input sorted by descending score (a rearrangement
    of the input in which no element is followed by a better one), and the
    result has at most [targetMax] elements: 200, respectively 500. *)
Theorem filterSnipableMarkets_prefix_bounded (markets : list item) :
  sort_desc score markets ≡ₚ markets /\
  StronglySorted desc (sort_desc score markets) /\
  filterSnipableMarkets_default score markets `prefix_of` sort_desc score markets /\
  (length (filterSnipableMarkets_default score markets) <= 200)%nat /\
  filterSnipableMarkets_v1_default score markets `prefix_of` sort_desc score markets /\
  (length (filterSnipableMarkets_v1_default score markets) <= 500)%nat.
Proof.
  split; [apply sort_desc_perm |].
  split; [apply sort_desc_sorted |].
  split; [apply filter_with_prefix |].
  split.
  - pose proof (filter_with_length [60; 55; 50; 45; 40; 35; 30] 20 50 markets 40 200)
      as H.
    unfold filterSnipableMarkets_default, filterSnipableMarkets, len in *. lia.
  - split; [apply filter_with_prefix |].
    pose proof (filter_with_length [50; 45; 40; 35; 30; 25; 20; 15; 10; 5] 10 100
                  markets 25 500) as H.
    unfold filterSnipableMarkets_v1_default, filterSnipableMarkets_v1, len in *. lia.
Qed.

End Filter.

(** Too few markets pass any threshold: the fallback returns the sorted
    list. *)
Example filter_three :
  fmap market (filterSnipableMarkets_default (λ z : Z, z) FilterExamples.three)
  = ["b"; "c"; "a"].
Proof. reflexivity. Qed.

End DynamicFilterProps.

(** ** Properties of the engine, as the specification describes it *)
Module EngineProps.
Import Engine.

(** *** Signals *)

(** C6. Whatever the asset, the time and the window statistics: with
    |z| < entryThreshold no ENTER signal comes out; ENTER_NO comes out only
    without an open position and with z >= entryThreshold; ENTER_YES only
    without an open position and with z <= - entryThreshold. *)
Theorem evaluate_enter_needs_threshold cfg a now price mean stddev count pos :
  let z := zscore price mean stddev in
  let k := kind (evaluate cfg a now price (Stats mean stddev count) pos) in
  ((Qabs z < entryThreshold cfg)%Q -> k <> ENTER_YES /\ k <> ENTER_NO) /\
  (k = ENTER_NO -> pos = None /\ (entryThreshold cfg <= z)%Q) /\
  (k = ENTER_YES -> pos = None /\ (z <= - entryThreshold cfg)%Q).
Proof.
  intros z k. subst k. unfold evaluate. cbn [kind]. fold z.
  generalize z. clear z. intros z. unfold decide_kind.
  split; [| split].
  - intros Habs. apply Qabs_Qlt_condition in Habs as [Hlo Hhi].
    destruct pos as [[] |]; repeat case_decide;
      (split; [discriminate || lra | discriminate || lra]).
  - destruct pos as [[] |]; repeat case_decide; try discriminate.
    intros _. split; [reflexivity | assumption].
  - destruct pos as [[] |]; repeat case_decide; try discriminate.
    intros _. split; [reflexivity | assumption].
Qed.

(** Scenario A: mean 100, stddev 2, price 106 give z = 3 and ENTER_NO. *)
Lemma evaluate_enter_needs_threshold_witness :
  kind (evaluate default_config "btc" 0 106 (Stats 100 2 30) None) = ENTER_NO /\
  (entryThreshold default_config <= zscore 106 100 2)%Q.
Proof.
  split; [reflexivity |].
  apply (evaluate_enter_needs_threshold default_config "btc" 0 106 100 2 30 None).
  reflexivity.
Defined.

(** *** Window statistics *)

Lemma checked_div_count (a : Q) (k : Z) :
  k <> 0 -> checked_div a (inject_Z k) = Some (a / inject_Z k)%Q.
Proof.
  intros Hk. unfold checked_div.
  destruct (Qeq_bool (inject_Z k) 0) eqn:Heq; [| reflexivity].
  apply Qeq_bool_eq in Heq. unfold Qeq in Heq. cbn in Heq. lia.
Qed.

(** [stats] never divides by zero, on any window and for any minimum. *)
Lemma stats_total sqrt minSamples w : stats sqrt minSamples w <> None.
Proof.
  unfold stats. destruct (_ || _) eqn:Hguard; [discriminate |].
  apply orb_false_iff in Hguard as [_ Hn]. apply Nat.ltb_ge in Hn.
  rewrite checked_div_count by lia. rewrite checked_div_count by lia.
  discriminate.
Qed.

(** C8. A window with fewer samples than the configured minimum, and a
    window of one sample whatever the minimum, makes [stats] answer
    "insufficient data": no division by zero ([None]) and no statistics with
    a zero or undefined deviation; the evaluation of that answer emits
    NONE. *)
Theorem stats_insufficient_below_minimum sqrt minSamples w cfg a now price pos :
  (length w < minSamples)%nat \/ length w = 1%nat ->
  stats sqrt minSamples w = Some Insufficient /\
  (forall ws, stats sqrt minSamples w = Some ws ->
              kind (evaluate cfg a now price ws pos) = NONE).
Proof.
  intros Hfew.
  assert (Hs : stats sqrt minSamples w = Some Insufficient).
  { unfold stats.
    destruct Hfew as [Hlt | Hone].
    - apply Nat.ltb_lt in Hlt. rewrite Hlt. reflexivity.
    - rewrite Hone. rewrite orb_true_r. reflexivity. }
  split; [exact Hs |].
  intros ws Hws. rewrite Hs in Hws. injection Hws as <-. reflexivity.
Qed.

Lemma stats_insufficient_below_minimum_witness :
  stats (λ v, v) 2 EngineExamples.single = Some Insufficient.
Proof.
  apply (stats_insufficient_below_minimum (λ v, v) 2 EngineExamples.single
           default_config "btc" 0 100 None).
  left. cbn. lia.
Defined.

(** *** Entries *)

(** The tracker of the specification does refuse an entry at the position
    cap and inside the cooldown of the asset. *)
Lemma enter_at_cap cfg env now a sd t :
  (maxPositions cfg <= open_positions t)%nat ->
  enter cfg env now a sd t = t.
Proof.
  intros Hcap. unfold enter.
  apply Nat.leb_le in Hcap. rewrite Hcap. reflexivity.
Qed.

Lemma enter_in_cooldown cfg env now a sd t last :
  lastTradeAt t !! a = Some last ->
  now - last < cooldownSeconds cfg ->
  enter cfg env now a sd t = t.
Proof.
  intros Hlast Hcool. unfold enter, in_cooldown. rewrite Hlast.
  apply Z.ltb_lt in Hcool. rewrite Hcool.
  rewrite orb_true_r. reflexivity.
Qed.

(** *** Forced closes *)

Lemma force_all_lookup cfg env now ps acc i p px :
  ps !! i = Some p ->
  is_open p = true ->
  due cfg now p = true ->
  gw_close env now (id p) = Some px ->
  (force_all cfg env now ps acc).1 !! i = Some (closed p px).
Proof.
  intros Hi Hopen Hdue Hgw. revert acc i Hi.
  induction ps as [| q ps IH]; intros acc i Hi; [discriminate |]. cbn.
  destruct (if is_open q && due cfg now q then _ else _) as [q' acc'] eqn:Hq.
  destruct (force_all cfg env now ps acc') as [rest acc''] eqn:Hrest.
  destruct i as [| i]; cbn in *.
  - injection Hi as ->. rewrite Hopen, Hdue in Hq. cbn in Hq.
    unfold try_close in Hq. rewrite Hgw in Hq. congruence.
  - specialize (IH acc' i Hi). rewrite Hrest in IH. exact IH.
Qed.

Lemma onSignal_keeps_closed cfg env now t sig i p :
  positions t !! i = Some p ->
  is_open p = false ->
  positions (onSignal cfg env now t sig) !! i = Some p.
Proof.
  intros Hi Hclosed. unfold onSignal.
  assert (Henter : forall sd, positions (enter cfg env now (sig_asset sig) sd t) !! i
                              = Some p).
  { intros sd. unfold enter. destruct (_ || _); [exact Hi |].
    destruct (gw_open _ _ _ _ _); [| exact Hi]. cbn.
    apply lookup_app_l_Some, Hi. }
  destruct (kind sig); try apply Henter; [| exact Hi].
  unfold exit_asset.
  destruct (list_find _ (positions t)) as [[j q] |] eqn:Hfind; [| exact Hi].
  destruct (try_close env now q (totals t)) as [q' acc]. cbn.
  apply list_find_Some in Hfind as (Hj & [Hq _] & _).
  rewrite list_lookup_insert_ne; [exact Hi |].
  intros ->. congruence.
Qed.

Lemma signals_keep_closed cfg env now signals t i p :
  positions t !! i = Some p ->
  is_open p = false ->
  positions (foldl (onSignal cfg env now) t signals) !! i = Some p.
Proof.
  revert t. induction signals as [| sig signals IH]; intros t Hi Hclosed;
    [exact Hi |].
  cbn. apply IH; [| exact Hclosed].
  apply onSignal_keeps_closed; assumption.
Qed.

Lemma force_all_rejected cfg env now ps acc i p :
  ps !! i = Some p ->
  gw_close env now (id p) = None ->
  (force_all cfg env now ps acc).1 !! i = Some p.
Proof.
  intros Hi Hgw. revert acc i Hi.
  induction ps as [| q ps IH]; intros acc i Hi; [discriminate |]. cbn.
  destruct (if is_open q && due cfg now q then _ else _) as [q' acc'] eqn:Hq.
  destruct (force_all cfg env now ps acc') as [rest acc''] eqn:Hrest.
  destruct i as [| i]; cbn in *.
  - injection Hi as ->. unfold try_close in Hq. rewrite Hgw in Hq.
    destruct (is_open p && due cfg now p); congruence.
  - specialize (IH acc' i Hi). rewrite Hrest in IH. exact IH.
Qed.

Lemma onSignal_keeps_rejected cfg env now t sig i p :
  positions t !! i = Some p ->
  gw_close env now (id p) = None ->
  positions (onSignal cfg env now t sig) !! i = Some p.
Proof.
  intros Hi Hgw. unfold onSignal.
  assert (Henter : forall sd, positions (enter cfg env now (sig_asset sig) sd t) !! i
                              = Some p).
  { intros sd. unfold enter. destruct (_ || _); [exact Hi |].
    destruct (gw_open _ _ _ _ _); [| exact Hi]. cbn.
    apply lookup_app_l_Some, Hi. }
  destruct (kind sig); try apply Henter; [| exact Hi].
  unfold exit_asset.
  destruct (list_find _ (positions t)) as [[j q] |] eqn:Hfind; [| exact Hi].
  apply list_find_Some in Hfind as (Hj & _ & _).
  destruct (decide (j = i)) as [-> | Hne].
  - assert (q = p) as -> by congruence.
    unfold try_close. rewrite Hgw. cbn.
    rewrite list_insert_id by exact Hi. exact Hi.
  - destruct (try_close env now q (totals t)) as [q' acc]. cbn.
    rewrite list_lookup_insert_ne by exact Hne. exact Hi.
Qed.

Lemma signals_keep_rejected cfg env now signals t i p :
  positions t !! i = Some p ->
  gw_close env now (id p) = None ->
  positions (foldl (onSignal cfg env now) t signals) !! i = Some p.
Proof.
  revert t. induction signals as [| sig signals IH]; intros t Hi Hgw;
    [exact Hi |].
  cbn. apply IH; [| exact Hgw].
  apply onSignal_keeps_rejected; assumption.
Qed.

Lemma due_later cfg now now' p :
  now <= now' -> due cfg now p = true -> due cfg now' p = true.
Proof.
  unfold due. intros Hle Hdue.
  apply orb_true_iff in Hdue as [H | H]; apply orb_true_iff.
  - left. apply Z.leb_le in H. apply Z.leb_le. lia.
  - right. apply Z.ltb_lt in H. apply Z.ltb_lt. lia.
Qed.

Lemma tick_accepted cfg env now signals t i p px :
  positions t !! i = Some p ->
  status p = OPEN ->
  due cfg now p = true ->
  gw_close env now (id p) = Some px ->
  positions (tick cfg env now signals t) !! i = Some (closed p px).
Proof.
  intros Hi Hopen Hdue Hgw. unfold tick.
  apply signals_keep_closed; [| reflexivity].
  unfold forcedCloses.
  pose proof (force_all_lookup cfg env now (positions t) (totals t) i p px Hi)
    as Hforce.
  destruct (force_all cfg env now (positions t) (totals t)) as [ps acc].
  cbn in *. apply Hforce; [| exact Hdue | exact Hgw].
  unfold is_open. rewrite Hopen. reflexivity.
Qed.

(** The tick at T = 0 did open [held]. *)
Example tracking_positions :
  positions EngineExamples.tracking = [EngineExamples.held].
Proof. reflexivity. Qed.

(** C7 (as amended). Take a position that is OPEN when a tick starts and
    for which [now >= marketExpiry - minCloseBuffer] or
    [now - openedAt > maxHoldDuration] holds at that tick, and any signals.
    If the gateway accepts the close, the position is CLOSED when the tick
    ends, at the price the gateway answers.  If the gateway rejects the
    close, the position is still there, OPEN and unchanged, and the next tick
    tries again: it closes the position as soon as the gateway accepts. *)
Theorem tick_closes_due_positions cfg env now signals t i p :
  positions t !! i = Some p ->
  status p = OPEN ->
  due cfg now p = true ->
  (forall px, gw_close env now (id p) = Some px ->
              positions (tick cfg env now signals t) !! i = Some (closed p px)) /\
  (gw_close env now (id p) = None ->
   positions (tick cfg env now signals t) !! i = Some p /\
   forall env' now' signals' px,
     now <= now' ->
     gw_close env' now' (id p) = Some px ->
     positions (tick cfg env' now' signals' (tick cfg env now signals t)) !! i
     = Some (closed p px)).
Proof.
  intros Hi Hopen Hdue. split.
  - intros px Hgw. apply tick_accepted; assumption.
  - intros Hgw.
    assert (Hstays : positions (tick cfg env now signals t) !! i = Some p).
    { unfold tick. apply signals_keep_rejected; [| exact Hgw].
      unfold forcedCloses.
      pose proof (force_all_rejected cfg env now (positions t) (totals t) i p Hi Hgw)
        as Hforce.
      destruct (force_all cfg env now (positions t) (totals t)) as [ps acc].
      exact Hforce. }
    split; [exact Hstays |].
    intros env' now' signals' px Hlater Hgw'.
    apply tick_accepted; [exact Hstays | exact Hopen | | exact Hgw'].
    eapply due_later; eassumption.
Qed.

(** Scenario D: opened at T, expiry at T + 130, buffer 120; the tick at
    T + 10 closes the position, whatever the signal. *)
Lemma tick_closes_due_positions_witness :
  positions (tick default_config EngineExamples.accepting 10
               [EngineExamples.exit_btc] EngineExamples.tracking) !! 0%nat
  = Some (closed EngineExamples.held (3 # 5)).
Proof.
  apply (tick_closes_due_positions default_config EngineExamples.accepting 10
           [EngineExamples.exit_btc] EngineExamples.tracking 0%nat
           EngineExamples.held); reflexivity.
Defined.

(** C7, counterexample.  At T + 10 the position of Scenario D is due,
    [now >= marketExpiry - minCloseBuffer]; the gateway rejects the close and,
    as section 4.3 has it for a rejection, the position is left unclosed: it
    is still OPEN when the tick ends. *)
Lemma tick_leaves_open_counterexample :
  marketExpiry EngineExamples.held - minCloseBuffer default_config <= 10 /\
  due default_config 10 EngineExamples.held = true /\
  positions (tick default_config EngineExamples.rejecting 10 []
               EngineExamples.tracking) !! 0%nat
  = Some EngineExamples.held /\
  status EngineExamples.held = OPEN.
Proof.
  repeat split; try reflexivity; cbn; lia.
Qed.

End EngineProps.

(** ** Further properties of the paper-trading store and its pages *)
Module PaperTradingMore.
Import PaperTrading Pages Binary64Props.

Section More.
Context {N : Number}.

(** The three ways [closeOrder] can go. *)
Lemma closeOrder_cases orderId px s :
  (closeOrder orderId px s = s /\
   (list_find (λ o, id o = orderId) (getOrders s) = None \/
    exists i x, list_find (λ o, id o = orderId) (getOrders s) = Some (i, x) /\
                status x <> OPEN)) \/
  (exists i x,
     list_find (λ o, id o = orderId) (getOrders s) = Some (i, x) /\
     status x = OPEN /\
     getOrders (closeOrder orderId px s) = <[i := closed_order x px]> (getOrders s) /\
     currentBalance (getProfile (closeOrder orderId px s))
     = (currentBalance (getProfile s) + shares x * px)%num /\
     totalPnL (getProfile (closeOrder orderId px s))
     = (totalPnL (getProfile s) + (shares x * px - amount x))%num /\
     tradesCount (getProfile (closeOrder orderId px s)) = tradesCount (getProfile s) /\
     initialBalance (getProfile (closeOrder orderId px s)) = initialBalance (getProfile s)).
Proof.
  unfold closeOrder.
  destruct (list_find _ (getOrders s)) as [[i x] |] eqn:Hfind; [| left; auto].
  destruct (status x) eqn:Hst.
  - right. exists i, x. cbn. repeat split; try reflexivity. exact Hst.
  - left. split; [reflexivity |]. right. exists i, x. split; [reflexivity | congruence].
  - left. split; [reflexivity |]. right. exists i, x. split; [reflexivity | congruence].
Qed.

Lemma list_find_insert_same (orderId : string) (l : list PaperOrder) i x y :
  list_find (λ o, id o = orderId) l = Some (i, x) ->
  id y = orderId ->
  list_find (λ o, id o = orderId) (<[i := y]> l) = Some (i, y).
Proof.
  intros Hfind Hy. apply list_find_Some in Hfind as (Hi & _ & Hfirst).
  apply list_find_Some. split; [| split].
  - apply list_lookup_insert_eq. eapply lookup_lt_Some, Hi.
  - exact Hy.
  - intros j z Hj Hlt. apply (Hfirst j z); [| exact Hlt].
    rewrite list_lookup_insert_ne in Hj by lia. exact Hj.
Qed.

(** X1. Closing the same id a second time changes nothing, at whatever
    price: the balance is credited once. *)
Theorem closeOrder_twice orderId px1 px2 s :
  closeOrder orderId px2 (closeOrder orderId px1 s) = closeOrder orderId px1 s.
Proof.
  destruct (closeOrder_cases orderId px1 s)
    as [[Hsame [Hnone | (i & x & Hfind & Hno)]] | (i & x & Hfind & Hopen & Hos & _)].
  - rewrite Hsame. unfold closeOrder. rewrite Hnone. reflexivity.
  - rewrite Hsame. unfold closeOrder. rewrite Hfind.
    destruct (status x); [contradiction | reflexivity | reflexivity].
  - set (s1 := closeOrder orderId px1 s) in *.
    assert (Hfind1 : list_find (λ o, id o = orderId) (getOrders s1)
                     = Some (i, closed_order x px1)).
    { rewrite Hos. eapply list_find_insert_same; [exact Hfind |].
      apply list_find_Some in Hfind as (_ & Hid & _). exact Hid. }
    unfold closeOrder at 1. rewrite Hfind1. reflexivity.
Qed.

Lemma filter_insert_length {A} (P : A -> Prop) `{!forall x, Decision (P x)}
    (l : list A) i x y :
  l !! i = Some x ->
  (length (filter P (<[i := y]> l)) + (if decide (P x) then 1 else 0)
   = length (filter P l) + (if decide (P y) then 1 else 0))%nat.
Proof.
  revert i. induction l as [| z l IH]; intros [| i] Hi; try discriminate.
  - injection Hi as ->.
    change (<[0%nat := y]> (x :: l)) with (y :: l). rewrite !filter_cons.
    destruct (decide (P x)), (decide (P y)); simpl length; lia.
  - change (<[S i := y]> (z :: l)) with (z :: <[i := y]> l).
    change ((z :: l) !! S i) with (l !! i) in Hi.
    specialize (IH i Hi). rewrite !filter_cons.
    destruct (decide (P x)), (decide (P y)), (decide (P z)); simpl length; lia.
Qed.

(** X2. When [closeOrder] finds an OPEN order, the orders page shows one
    active position less and one history row more; the list keeps its
    length. *)
Theorem closeOrder_moves_to_history orderId px s i x :
  list_find (λ o, id o = orderId) (getOrders s) = Some (i, x) ->
  status x = OPEN ->
  let os' := getOrders (closeOrder orderId px s) in
  length os' = length (getOrders s) /\
  S (length (activeOrders os')) = length (activeOrders (getOrders s)) /\
  length (historyOrders os') = S (length (historyOrders (getOrders s))).
Proof.
  intros Hfind Hopen os'.
  destruct (closeOrder_cases orderId px s)
    as [[_ [Hnone | (j & y & Hf & Hno)]] | (j & y & Hf & _ & Hos & _)];
    try congruence.
  assert (j = i /\ y = x) as [-> ->] by (split; congruence).
  subst os'. rewrite Hos.
  apply list_find_Some in Hfind as (Hi & _ & _).
  split; [apply length_insert |].
  unfold activeOrders, historyOrders. split.
  - pose proof (filter_insert_length (λ o, status o = OPEN) _ i x
                  (closed_order x px) Hi) as H.
    rewrite decide_True in H by exact Hopen.
    rewrite decide_False in H by discriminate. lia.
  - pose proof (filter_insert_length (λ o, status o <> OPEN) _ i x
                  (closed_order x px) Hi) as H.
    rewrite decide_False in H by (intros Hn; apply Hn, Hopen).
    rewrite decide_True in H by discriminate. lia.
Qed.


(** *** The trade counter and the module object *)




Lemma exec_keeps_default op s :
  is_Some (profile_item s) ->
  default_obj (exec op s) = default_obj s /\ is_Some (profile_item (exec op s)).
Proof.
  intros [p Hp]. destruct op as [[order rnd_id now | orderId px] | balance | profile]; cbn.
  - unfold addOrder. destruct (n_lt _ _); cbn; [eauto |].
    unfold mutate_profile. rewrite Hp. eauto.
  - unfold closeOrder. destruct (list_find _ _) as [[i x] |]; [| eauto].
    destruct (status x); cbn; eauto.
    unfold mutate_profile. rewrite Hp. eauto.
  - eauto.
  - eauto.
Qed.

(** X6. Once a profile is stored, no sequence of store operations changes
    the module object: every later [reset] starts from the same defaults. *)
Theorem stored_profile_protects_default (ops : list Op) s :
  is_Some (profile_item s) ->
  default_obj (run ops s) = default_obj s /\
  is_Some (profile_item (run ops s)) /\
  forall b, reset b (run ops s)
            = {| default_obj := default_obj s;
                 profile_item := profile_item (reset b s);
                 orders_item := Some [] |}.
Proof.
  revert s. induction ops as [| op ops IH]; intros s Hs; cbn [run].
  - split; [reflexivity |]. split; [exact Hs |]. intros b. reflexivity.
  - destruct (exec_keeps_default op s Hs) as [Hd Hs'].
    destruct (IH (exec op s) Hs') as (Hd' & Hst & Hreset).
    split; [congruence |]. split; [exact Hst |].
    intros b. rewrite Hreset. unfold reset. cbn. rewrite Hd. reflexivity.
Qed.

Lemma reachable_default_fields s :
  reachable s ->
  (profile_item s = None -> default_obj s = DEFAULT_PROFILE /\ getOrders s = []) /\
  username (default_obj s) = username DEFAULT_PROFILE /\
  initialBalance (default_obj s) = initialBalance DEFAULT_PROFILE /\
  totalPnL (default_obj s) = totalPnL DEFAULT_PROFILE /\
  winRate (default_obj s) = winRate DEFAULT_PROFILE /\
  active (default_obj s) = active DEFAULT_PROFILE /\
  autoFollow (default_obj s) = autoFollow DEFAULT_PROFILE /\
  (tradesCount (default_obj s) = 0 \/ tradesCount (default_obj s) = 1).
Proof.
  induction 1 as [| op s _ IH | s _ IH].
  - cbn. repeat split; auto.
  - destruct (profile_item s) as [p |] eqn:Hp.
    + destruct (exec_keeps_default op s) as [Hd [q Hq]]; [eauto |].
      rewrite Hd. split; [congruence | apply IH].
    + destruct IH as [Hnone _]. destruct (Hnone eq_refl) as [Hd Hos].
      destruct op as [[order rnd_id now | orderId px] | balance | profile]; cbn.
      * unfold addOrder. destruct (n_lt _ _); cbn.
        -- rewrite Hd. repeat split; auto.
        -- unfold mutate_profile, getProfile. rewrite Hp, Hd. cbn.
           repeat split; auto; discriminate.
      * unfold closeOrder. rewrite Hos. cbn. rewrite Hp, Hd. repeat split; auto.
      * rewrite Hd. cbn. repeat split; auto; discriminate.
      * rewrite Hd. cbn. repeat split; auto; discriminate.
  - destruct IH as [Hnone _]. cbn. split; [| repeat split; auto].
    intros Hp. split; [reflexivity |]. exact (proj2 (Hnone Hp)).
Qed.

(** X7. In every state the application reaches, the module object differs
    from the literal [DEFAULT_PROFILE] at most in its balance and in a trade
    counter of 0 or 1; as long as no profile is stored it is the literal and
    no order is stored. *)
Theorem reachable_module_object s :
  reachable s ->
  (profile_item s = None -> default_obj s = DEFAULT_PROFILE /\ getOrders s = []) /\
  (exists bal n,
     (n = 0 \/ n = 1) /\
     default_obj s = {| username := "Ghost Trader"; initialBalance := n_1000;
                        currentBalance := bal; totalPnL := n_zero; winRate := n_zero;
                        tradesCount := n; active := false; autoFollow := false |}).
Proof.
  intros Hreach.
  destruct (reachable_default_fields s Hreach)
    as (Hnone & Hu & Hi & Hp & Hw & Ha & Hf & Hn).
  split; [exact Hnone |].
  exists (currentBalance (default_obj s)), (tradesCount (default_obj s)).
  split; [exact Hn |].
  destruct (default_obj s); cbn in *. congruence.
Qed.

(** X8. The settings page's reset, once confirmed, wipes the orders and
    stores a profile that owes nothing to the one stored before: the balance
    typed in, no pnl, no win rate, the default name again, paper trading
    active, and a trade counter of 0 or 1.  Declined, it changes nothing. *)
Theorem handleReset_wipes balanceInput s :
  reachable s ->
  handleReset false balanceInput s = s /\
  getOrders (handleReset true balanceInput s) = [] /\
  exists n,
    (n = 0 \/ n = 1) /\
    getProfile (handleReset true balanceInput s)
    = {| username := "Ghost Trader"; initialBalance := balanceInput;
         currentBalance := balanceInput; totalPnL := n_zero; winRate := n_zero;
         tradesCount := n; active := true; autoFollow := false |}.
Proof.
  intros Hreach.
  destruct (reachable_default_fields s Hreach)
    as (_ & Hu & _ & Hp & Hw & _ & Hf & Hn).
  split; [reflexivity |]. split; [reflexivity |].
  exists (tradesCount (default_obj s)). split; [exact Hn |].
  cbn. rewrite Hu, Hp, Hw, Hf. reflexivity.
Qed.

End More.

(** *** Balance and win rate *)

Lemma Qltb_true (a b : Q) : Qltb a b = true <-> (a < b)%Q.
Proof.
  unfold Qltb. rewrite negb_true_iff. split.
  - intros H. apply Qnot_le_lt. intros Hle. apply Qle_bool_iff in Hle. congruence.
  - intros H. destruct (Qle_bool b a) eqn:Hle; [| reflexivity].
    apply Qle_bool_iff in Hle. exfalso. apply (Qlt_not_le _ _ H Hle).
Qed.

Lemma exec_trade_proper {N : Number} {L : NumberOrder N} (t : TradeOp) s :
  proper_trade t ->
  n_nonneg (currentBalance (getProfile s)) ->
  Forall proper_order (getOrders s) ->
  n_nonneg (currentBalance (getProfile (exec_trade t s))) /\
  Forall proper_order (getOrders (exec_trade t s)).
Proof.
  destruct t as [order rnd_id now | orderId px]; cbn [exec_trade proper_trade].
  - intros (Hfin & Hsh & Hshf) Hbal Hos.
    unfold addOrder. destruct (n_lt _ _) eqn:Hge; [split; assumption |].
    cbn. split.
    + apply n_sub_nonneg; assumption.
    + constructor; [split; assumption | exact Hos].
  - intros (Hpx & Hpxf) Hbal Hos.
    destruct (closeOrder_cases orderId px s)
      as [[-> _] | (i & x & Hfind & _ & Hos' & Hcb & _)]; [split; assumption |].
    apply list_find_Some in Hfind as (Hi & _ & _).
    destruct (proj1 (Forall_lookup _ _) Hos i x Hi) as [Hx Hxf].
    split.
    + rewrite Hcb. apply n_add_nonneg; [exact Hbal |].
      apply n_mul_nonneg; assumption.
    + rewrite Hos'. apply Forall_insert; [exact Hos | split; assumption].
Qed.

(** In every arithmetic with such an order, that of the doubles included,
    the balance stays where [0 <= currentBalance] holds. *)
Lemma balance_stays_nonneg {N : Number} {L : NumberOrder N} (ops : list TradeOp) s :
  n_nonneg (currentBalance (getProfile s)) ->
  Forall proper_order (getOrders s) ->
  Forall proper_trade ops ->
  n_nonneg (currentBalance (getProfile (run (map Trade ops) s))).
Proof.
  intros Hbal Hsh Hops. revert s Hbal Hsh.
  induction Hops as [| t ops Ht _ IH]; intros s Hbal Hsh; [exact Hbal |].
  cbn [map run exec].
  destruct (exec_trade_proper t s Ht Hbal Hsh) as [Hbal' Hsh'].
  apply IH; assumption.
Qed.

(** X9. Starting from a non-negative balance, with no negative share
    counts and no negative exit prices, no sequence of [addOrder] and
    [closeOrder] makes the balance negative. *)
Theorem balance_never_negative (ops : list (TradeOp (N := exact)))
    (s : Store (N := exact)) :
  (0 <= currentBalance (getProfile s))%Q ->
  Forall (λ o : PaperOrder (N := exact), (0 <= shares o)%Q) (getOrders s) ->
  Forall sane_trade ops ->
  (0 <= currentBalance (getProfile (run (map Trade ops) s)))%Q.
Proof.
  intros Hbal Hsh Hops.
  apply Qle_bool_iff, (balance_stays_nonneg (N := exact) ops s).
  - apply Qle_bool_iff, Hbal.
  - eapply Forall_impl; [exact Hsh |]. intros o Ho.
    split; [apply Qle_bool_iff, Ho | reflexivity].
  - eapply Forall_impl; [exact Hops |].
    intros [order rnd_id now | orderId px] Ht; cbn in *.
    + split; [reflexivity |]. split; [apply Qle_bool_iff, Ht | reflexivity].
    + split; [apply Qle_bool_iff, Ht | reflexivity].
Qed.

(** The same on the doubles of the code, for finite amounts, share counts
    and exit prices: [0 <= currentBalance] stays true. *)
Lemma balance_never_negative_binary64 (ops : list (TradeOp (N := binary64)))
    (s : Store (N := binary64)) :
  PrimFloat.leb PrimFloat.zero (currentBalance (getProfile s)) = true ->
  Forall proper_order (getOrders s) ->
  Forall proper_trade ops ->
  PrimFloat.leb PrimFloat.zero
    (currentBalance (getProfile (run (map Trade ops) s))) = true.
Proof.
  apply (balance_stays_nonneg (N := binary64)).
Qed.

Lemma filter_length_le {A} (P R : A -> Prop) `{!forall x, Decision (P x)}
    `{!forall x, Decision (R x)} (l : list A) :
  Forall (λ x, P x -> R x) l ->
  (length (filter P l) <= length (filter R l))%nat.
Proof.
  induction 1 as [| x l Hx _ IH]; [reflexivity |].
  rewrite !filter_cons.
  destruct (decide (P x)) as [HP | _], (decide (R x)) as [_ | HR];
    simpl length; try lia.
  exfalso. apply HR, Hx, HP.
Qed.

(** X10. When every order with a positive pnl is CLOSED (as it is when
    orders are placed without a pnl of their own), a successful [closeOrder]
    leaves a win rate between 0 and 100: the share of the closed orders that
    ended with a positive pnl. *)
Theorem winRate_is_percentage orderId px (s : Store (N := exact)) i x :
  list_find (λ o, id o = orderId) (getOrders s) = Some (i, x) ->
  status x = OPEN ->
  Forall (λ o : PaperOrder (N := exact), (0 < pnl_or_0 o)%Q -> status o = CLOSED) (getOrders s) ->
  (0 <= winRate (getProfile (closeOrder orderId px s)) <= 100)%Q.
Proof.
  intros Hfind Hopen Hwins. unfold closeOrder. rewrite Hfind, Hopen. cbn.
  apply list_find_Some in Hfind as (Hi & _ & _).
  set (os' := <[i := updated_order x px]> (getOrders s)).
  assert (Hwins' : Forall (λ o : PaperOrder (N := exact), Qltb 0 (pnl_or_0 o) = true -> status o = CLOSED) os').
  { apply Forall_insert; [| reflexivity].
    eapply Forall_impl; [exact Hwins |]. cbn. intros o Ho Hlt.
    apply Ho, Qltb_true, Hlt. }
  pose proof (filter_length_le _ (λ o, status o = CLOSED) os' Hwins') as Hle.
  destruct (decide _) as [Hpos | _]; [| lra].
  set (w := length (filter (λ o : PaperOrder (N := exact), Qltb 0 (pnl_or_0 o) = true) os')) in *.
  set (c := length (filter (λ o, status o = CLOSED) os')) in *.
  assert (Hc : (0 < inject_Z (Z.of_nat c))%Q).
  { change 0%Q with (inject_Z 0). rewrite <- Zlt_Qlt. lia. }
  assert (Hw0 : (0 <= inject_Z (Z.of_nat w))%Q).
  { change 0%Q with (inject_Z 0). rewrite <- Zle_Qle. lia. }
  assert (Hwc : (inject_Z (Z.of_nat w) <= inject_Z (Z.of_nat c))%Q).
  { rewrite <- Zle_Qle. lia. }
  assert (H0 : (0 <= inject_Z (Z.of_nat w) / inject_Z (Z.of_nat c))%Q).
  { apply Qle_shift_div_l; [exact Hc | lra]. }
  assert (H1 : (inject_Z (Z.of_nat w) / inject_Z (Z.of_nat c) <= 1)%Q).
  { apply Qle_shift_div_r; [exact Hc | lra]. }
  split; lra.
Qed.

Lemma balance_never_negative_witness :
  (0 <= currentBalance
          (getProfile (run (map Trade (Examples.session (N := exact))) Examples.fresh)))%Q.
Proof.
  apply (balance_never_negative Examples.session Examples.fresh).
  - vm_compute. discriminate.
  - constructor.
  - repeat constructor; vm_compute; discriminate.
Defined.

Lemma winRate_is_percentage_witness :
  (0 <= winRate (getProfile (closeOrder (N := exact) "a" (3 # 4) Examples.one_no))
   <= 100)%Q.
Proof.
  apply (winRate_is_percentage "a" (3 # 4) Examples.one_no 0%nat
           (mkOrder (Examples.order_on "btc" NO) "a" 0)).
  - reflexivity.
  - reflexivity.
  - repeat constructor. vm_compute. discriminate.
Defined.

(** *** The code's arithmetic *)

#[local] Existing Instance binary64.

Lemma closeOrder_moves_to_history_witness :
  S (length (activeOrders (getOrders (closeOrder "a" (Examples.ratio 3 4) Examples.one_no))))
  = length (activeOrders (getOrders Examples.one_no)).
Proof.
  apply (closeOrder_moves_to_history "a" (Examples.ratio 3 4) Examples.one_no 0%nat
           (mkOrder (Examples.order_on "btc" NO) "a" 0)); reflexivity.
Defined.


(** Staking 0.7 for 3 shares out of 1000 and closing at 0.3 leaves
    (1000 - 0.7) + 3 * 0.3, which in [binary64] is not the double nearest to
    1000.2. *)
Example addOrder_then_closeOrder_rounds :
  let order := Examples.stake (Examples.ratio 7 10) (Examples.ratio 1 4) (Examples.whole 3) in
  let s' := closeOrder "a" (Examples.ratio 3 10) (addOrder order "a" 0 Examples.fresh).2 in
  currentBalance (getProfile s')
  = ((Examples.whole 1000 - Examples.ratio 7 10) + Examples.whole 3 * Examples.ratio 3 10)%num /\
  ~ (n_val (currentBalance (getProfile s'))
     == n_val (Examples.whole 1000) - n_val (Examples.ratio 7 10)
        + n_val (Examples.whole 3) * n_val (Examples.ratio 3 10))%Q.
Proof.
  split; [reflexivity |]. vm_compute. discriminate.
Qed.


Lemma stored_profile_protects_default_witness :
  default_obj (run (map Trade Examples.session) (handleSaveProfile "me" (page_load None None)))
  = DEFAULT_PROFILE.
Proof.
  apply (stored_profile_protects_default (map Trade Examples.session)
           (handleSaveProfile "me" (page_load None None))).
  cbn. eauto.
Defined.

Lemma reachable_module_object_witness :
  exists bal n,
    (n = 0 \/ n = 1) /\
    default_obj (exec (Trade (AddOrder (Examples.order_on "btc" YES) "a" 0))
                   (page_load None None))
    = {| username := "Ghost Trader"; initialBalance := n_1000;
         currentBalance := bal; totalPnL := n_zero; winRate := n_zero;
         tradesCount := n; active := false; autoFollow := false |}.
Proof.
  apply (reachable_module_object
           (exec (Trade (AddOrder (Examples.order_on "btc" YES) "a" 0))
              (page_load None None))).
  apply reach_exec, reach_first_visit.
Defined.

Lemma handleReset_wipes_witness :
  getOrders (handleReset true (Examples.whole 500)
               (handleSaveProfile "me" Examples.five_open)) = [].
Proof.
  apply (handleReset_wipes (Examples.whole 500) (handleSaveProfile "me" Examples.five_open)).
  apply (reach_exec (SaveProfile _)).
  unfold Examples.five_open, Examples.fresh.
  repeat (apply (reach_exec (Trade _))).
  apply (reach_exec (Reset _)), reach_first_visit.
Defined.

(** X11. The orders page reads the pnl that [closeOrder] stored: the double
    shares * exitPrice - amount, product and difference rounded in turn (0
    when that is not finite).  The order is labelled WIN exactly when the
    stored pnl is at least 0, and a later [closeOrder] counts it as a win
    exactly when the stored pnl is above 0: an order whose stored pnl is 0 is
    shown as WIN and not counted as one.  An order that [closeOrder] counts
    as a win while closing it is labelled WIN. *)
Theorem label_and_win_count (o : PaperOrder (N := binary64)) (px : num) :
  let o' := closed_order o px in
  pnl_or_0 o' = default n_zero (n_json (shares o * px - amount o)%num) /\
  (label o' = WIN <-> (0 <= n_val (pnl_or_0 o'))%Q) /\
  (counted_as_win o' = true <-> (0 < n_val (pnl_or_0 o'))%Q) /\
  ((n_val (pnl_or_0 o') == 0)%Q -> label o' = WIN /\ counted_as_win o' = false) /\
  (counted_as_win (updated_order o px) = true -> label o' = WIN).
Proof.
  intros o'.
  assert (Hpnl : pnl_or_0 o'
                 = default n_zero (n_json (shares o * px - amount o)%num))
    by reflexivity.
  split; [exact Hpnl |].
  assert (Hfin : float_finite (pnl_or_0 o') = true)
    by (rewrite Hpnl; apply float_json_finite).
  destruct (leb_zero_val (pnl_or_0 o') Hfin) as [Hle Hlt].
  assert (Hlabel : label o' = WIN <-> (0 <= n_val (pnl_or_0 o'))%Q).
  { rewrite <- Hle. unfold label. cbn [n_le n_zero binary64].
    destruct (PrimFloat.leb _ _); split; intros H; try reflexivity; discriminate. }
  split; [exact Hlabel |]. split; [exact Hlt |]. split.
  - intros H0. split.
    + apply Hlabel. rewrite H0. apply Qle_refl.
    + destruct (counted_as_win o') eqn:Hc; [| reflexivity].
      apply Hlt in Hc. rewrite H0 in Hc. exfalso. apply (Qlt_irrefl 0), Hc.
  - intros Hv. apply Hlabel. rewrite Hpnl. apply ltb_zero_json, Hv.
Qed.

(** Three shares bought for 0.30000000000000004 and closed at 0.1: the
    stored pnl is 0, the order is shown as WIN and not counted as a win,
    although three times the exact value of the exit price is below the exact
    value of the amount. *)
Lemma label_and_win_count_witness :
  let o' := closed_order (mkOrder Examples.three_shares "a" 0) (Examples.ratio 1 10) in
  (n_val (pnl_or_0 o') == 0)%Q /\
  label o' = WIN /\ counted_as_win o' = false /\
  (n_val (shares o') * n_val (Examples.ratio 1 10) < n_val (amount o'))%Q.
Proof.
  intros o'.
  assert (H0 : (n_val (pnl_or_0 o') == 0)%Q) by (vm_compute; reflexivity).
  split; [exact H0 |].
  destruct (label_and_win_count (mkOrder Examples.three_shares "a" 0)
              (Examples.ratio 1 10)) as (_ & _ & _ & Hzero & _).
  destruct (Hzero H0) as [Hl Hc].
  split; [exact Hl |]. split; [exact Hc |].
  vm_compute. reflexivity.
Defined.

End PaperTradingMore.

(** ** Further properties of the market filter and of its callers *)
Module DynamicFilterMore.
Import DynamicFilter Callers.

Section Filter.
Context {ProcessedMarket SnipabilityScore : Type}.
Variable score : SnipabilityScore -> Z.
Variable market_id : ProcessedMarket -> string.

Abbreviation item := (Scored ProcessedMarket SnipabilityScore).
Abbreviation score_of := (score_of score).
Abbreviation desc := (desc score).

Lemma len_sort_desc (markets : list item) : len (sort_desc score markets) = len markets.
Proof. unfold len. rewrite (DynamicFilterProps.sort_desc_perm score markets). reflexivity. Qed.

Lemma slice0_exact {A} (e : Z) (l : list A) :
  0 <= e <= len l -> len (slice0 e l) = e.
Proof.
  intros He. unfold slice0, len in *.
  destruct (e <? 0) eqn:Hneg; [apply Z.ltb_lt in Hneg; lia |].
  rewrite length_take. lia.
Qed.

Lemma scan_lower lowest lastResort targetMin targetMax (sorted : list item)
    thresholds result :
  0 <= targetMax ->
  scan score lowest lastResort targetMin targetMax sorted thresholds = Some result ->
  Z.min (Z.min targetMin targetMax) lastResort <= len result.
Proof.
  intros Hmax. induction thresholds as [| t rest IH]; cbn [scan]; [discriminate |].
  set (filtered := filter (λ m : item, t <= score_of m) sorted).
  destruct (targetMin <=? len filtered) eqn:H1;
    destruct (len filtered <=? targetMax) eqn:H2; cbn [andb].
  1: { intros [= <-]. apply Z.leb_le in H1. lia. }
  all: destruct (targetMax <? len filtered) eqn:Hmany;
    [ intros [= <-]; apply Z.ltb_lt in Hmany; rewrite slice0_exact by lia; lia |].
  all: destruct ((len filtered <? targetMin) && (lowest <? t)); [exact IH |].
  all: destruct (lastResort <=? len filtered) eqn:Hlast; [| exact IH].
  all: intros [= <-]; apply Z.leb_le in Hlast; apply Z.ltb_ge in Hmany;
    apply Z.leb_gt in H2 || apply Z.leb_gt in H1; lia.
Qed.

Lemma scan_none lowest lastResort targetMin targetMax (sorted : list item) thresholds :
  len sorted < targetMin ->
  len sorted < lastResort ->
  len sorted <= targetMax ->
  scan score lowest lastResort targetMin targetMax sorted thresholds = None.
Proof.
  intros Hmin Hlast Hmax. induction thresholds as [| t rest IH]; [reflexivity |].
  cbn.
  pose proof (length_filter (λ m : item, t <= score_of m) sorted) as Hle.
  set (n := len (filter (λ m : item, t <= score_of m) sorted)).
  assert (Hn : n <= len sorted) by (unfold n, len; lia).
  replace (targetMin <=? n) with false by (symmetry; apply Z.leb_gt; lia).
  replace (targetMax <? n) with false by (symmetry; apply Z.ltb_ge; lia).
  replace (lastResort <=? n) with false by (symmetry; apply Z.leb_gt; lia).
  cbn. destruct (_ && _); exact IH.
Qed.

Lemma filter_with_lower thresholds lastResort fallbackTop (markets : list item)
    targetMin targetMax :
  0 <= targetMax -> 0 <= fallbackTop ->
  Z.min (Z.min (Z.min targetMin targetMax) lastResort)
        (Z.min fallbackTop (len markets))
  <= len (filter_with score thresholds lastResort fallbackTop markets targetMin targetMax).
Proof.
  intros Hmax Hfb. unfold filter_with.
  destruct (scan _ _ _ _ _ _ _) as [result |] eqn:Hscan.
  - pose proof (scan_lower _ _ _ _ _ _ _ Hmax Hscan). lia.
  - rewrite slice0_exact; rewrite len_sort_desc; unfold len; lia.
Qed.

(** X12. For any [targetMin] and any [targetMax] of at least 50 (100 for the
    earlier version), in particular as the two pages call it with 25 and 500,
    the result has at most [targetMax] elements and is a prefix of the sorted
    input. *)
Theorem filterSnipableMarkets_bounded_for_all_targets (markets : list item)
    (targetMin targetMax : Z) :
  (50 <= targetMax ->
   len (filterSnipableMarkets score markets targetMin targetMax) <= targetMax) /\
  (100 <= targetMax ->
   len (filterSnipableMarkets_v1 score markets targetMin targetMax) <= targetMax) /\
  filterSnipableMarkets score markets targetMin targetMax
    `prefix_of` sort_desc score markets /\
  filterSnipableMarkets_v1 score markets targetMin targetMax
    `prefix_of` sort_desc score markets /\
  (length (snipable score markets) <= 500)%nat.
Proof.
  split; [| split; [| split; [| split]]].
  - intros H. apply DynamicFilterProps.filter_with_length. lia.
  - intros H. apply DynamicFilterProps.filter_with_length. lia.
  - apply DynamicFilterProps.filter_with_prefix.
  - apply DynamicFilterProps.filter_with_prefix.
  - pose proof (DynamicFilterProps.filter_with_length score
                  [60; 55; 50; 45; 40; 35; 30] 20 50 markets 25 500) as H.
    unfold snipable, filterSnipableMarkets, len in *. lia.
Qed.

(** X13. Whatever the targets, the result is the top of the ranking: the
    sorted input is the result followed by markets that score no better than
    any market returned, and the result takes its markets from the input,
    none of them twice. *)
Theorem filterSnipableMarkets_top_of_ranking (markets : list item)
    (targetMin targetMax : Z) :
  let result := filterSnipableMarkets score markets targetMin targetMax in
  result ⊆+ markets /\
  exists rest,
    sort_desc score markets = result ++ rest /\
    forall kept dropped, kept ∈ result -> dropped ∈ rest ->
                         score_of dropped <= score_of kept.
Proof.
  intros result.
  destruct (DynamicFilterProps.filter_with_prefix score
              [60; 55; 50; 45; 40; 35; 30] 20 50 markets targetMin targetMax)
    as [rest Hrest].
  fold (filterSnipableMarkets score markets targetMin targetMax) in Hrest.
  fold result in Hrest.
  split.
  - rewrite <- (DynamicFilterProps.sort_desc_perm score markets), Hrest.
    apply submseteq_inserts_r. reflexivity.
  - exists rest. split; [exact Hrest |].
    intros kept dropped Hk Hd.
    pose proof (DynamicFilterProps.sort_desc_sorted score markets) as Hs.
    rewrite Hrest in Hs.
    exact (StronglySorted_app_1_elem_of _ _ _ _ _ Hs Hk Hd).
Qed.

(** X14. With targets of at least 20 (10 for the earlier version) the
    result has at least 20 (10) markets whenever the input has that many,
    and otherwise as many as the input. *)
Theorem filterSnipableMarkets_minimum (markets : list item) (targetMin targetMax : Z) :
  (20 <= targetMin -> 20 <= targetMax ->
   Z.min 20 (len markets)
   <= len (filterSnipableMarkets score markets targetMin targetMax)) /\
  (10 <= targetMin -> 10 <= targetMax ->
   Z.min 10 (len markets)
   <= len (filterSnipableMarkets_v1 score markets targetMin targetMax)).
Proof.
  split; intros Hmin Hmax.
  - pose proof (filter_with_lower [60; 55; 50; 45; 40; 35; 30] 20 50 markets
                  targetMin targetMax) as H.
    unfold filterSnipableMarkets. lia.
  - pose proof (filter_with_lower [50; 45; 40; 35; 30; 25; 20; 15; 10; 5] 10 100
                  markets targetMin targetMax) as H.
    unfold filterSnipableMarkets_v1. lia.
Qed.

(** X15. An input of fewer than 20 markets (10 for the earlier version)
    passes no threshold: with targets of at least 20 (10) the whole input
    comes back, sorted by descending score. *)
Theorem filterSnipableMarkets_small_input (markets : list item)
    (targetMin targetMax : Z) :
  (len markets < 20 -> 20 <= targetMin -> 20 <= targetMax ->
   filterSnipableMarkets score markets targetMin targetMax = sort_desc score markets) /\
  (len markets < 10 -> 10 <= targetMin -> 10 <= targetMax ->
   filterSnipableMarkets_v1 score markets targetMin targetMax = sort_desc score markets).
Proof.
  assert (Hall : forall l : list item, len l < 50 ->
                   slice0 (Z.min 50 (len l)) l = l /\ slice0 (Z.min 100 (len l)) l = l).
  { intros l Hl. unfold slice0, len in *.
    replace (Z.min 50 _) with (Z.of_nat (length l)) by lia.
    replace (Z.min 100 _) with (Z.of_nat (length l)) by lia.
    destruct (_ <? 0) eqn:Hneg; [apply Z.ltb_lt in Hneg; lia |].
    rewrite Nat2Z.id, firstn_all. split; reflexivity. }
  split; intros Hsmall Hmin Hmax.
  - unfold filterSnipableMarkets, filter_with.
    rewrite scan_none by (rewrite len_sort_desc; lia).
    apply Hall. rewrite len_sort_desc. lia.
  - unfold filterSnipableMarkets_v1, filter_with.
    rewrite scan_none by (rewrite len_sort_desc; lia).
    apply Hall. rewrite len_sort_desc. lia.
Qed.

(** *** The callers *)

Lemma foldl_max_id (x : Z) (l : list Z) :
  Forall (λ y, y <= x) l -> foldl Z.max x l = x.
Proof.
  induction 1 as [| y l Hy _ IH]; [reflexivity |].
  cbn. rewrite Z.max_l by exact Hy. exact IH.
Qed.

(** X16. On a non-empty scan the dashboard's [snipable[0]] exists and is a
    best-scored market of everything scanned, and [highestScore] is its
    score; on an empty scan nothing is returned and [highestScore] is 0. *)
Theorem dashboard_best_market (scored : list item) :
  (scored <> [] ->
   exists best others,
     snipable score scored = best :: others /\
     (forall m, m ∈ scored -> score_of m <= score_of best) /\
     highestScore score (snipable score scored) = score_of best) /\
  (scored = [] ->
   snipable score scored = [] /\ highestScore score (snipable score scored) = 0).
Proof.
  split.
  - intros Hne.
    pose proof (filter_with_lower [60; 55; 50; 45; 40; 35; 30] 20 50 scored 25 500)
      as Hlow.
    fold (filterSnipableMarkets score scored 25 500) in Hlow.
    fold (snipable score scored) in Hlow.
    destruct (DynamicFilterProps.filter_with_prefix score
                [60; 55; 50; 45; 40; 35; 30] 20 50 scored 25 500) as [rest Hrest].
    fold (filterSnipableMarkets score scored 25 500) in Hrest.
    fold (snipable score scored) in Hrest.
    destruct (snipable score scored) as [| best others] eqn:Hsn.
    { exfalso. destruct scored; [congruence |]. unfold len in Hlow. cbn in Hlow. lia. }
    exists best, others. split; [reflexivity |].
    pose proof (DynamicFilterProps.sort_desc_sorted score scored) as Hs.
    rewrite Hrest in Hs. cbn in Hs. apply StronglySorted_inv in Hs as [_ Hall].
    split.
    + intros m Hm.
      rewrite <- (DynamicFilterProps.sort_desc_perm score scored), Hrest in Hm.
      cbn in Hm. apply elem_of_cons in Hm as [-> | Hm]; [reflexivity |].
      exact (proj1 (Forall_forall _ _) Hall m Hm).
    + cbn. apply foldl_max_id. apply Forall_fmap.
      apply Forall_app in Hall as [Hothers _]. exact Hothers.
  - intros ->. split; reflexivity.
Qed.

Abbreviation ids := (fmap (λ x : item, market_id (market x))).

Lemma dedup_spec (uniqueMap : gset string) (l : list item) :
  NoDup (ids (dedup market_id uniqueMap l)) /\
  (forall x, x ∈ dedup market_id uniqueMap l -> market_id (market x) ∉ uniqueMap) /\
  dedup market_id uniqueMap l `sublist_of` l /\
  (forall x, x ∈ l ->
     market_id (market x) ∈ uniqueMap \/
     market_id (market x) ∈ ids (dedup market_id uniqueMap l)).
Proof.
  revert uniqueMap. induction l as [| y l IH]; intros uniqueMap; cbn [dedup].
  - split; [constructor |].
    split; [intros x Hx%elem_of_nil; contradiction |].
    split; [constructor |]. intros x Hx%elem_of_nil. contradiction.
  - destruct (decide (market_id (market y) ∈ uniqueMap)) as [Hin | Hnew].
    + destruct (IH uniqueMap) as (Hnd & Hfresh & Hsub & Hall).
      split; [exact Hnd |]. split; [exact Hfresh |].
      split; [apply sublist_cons, Hsub |].
      intros x Hx. apply elem_of_cons in Hx as [-> | Hx]; [left; exact Hin |].
      apply Hall, Hx.
    + destruct (IH ({[ market_id (market y) ]} ∪ uniqueMap))
        as (Hnd & Hfresh & Hsub & Hall).
      split; [| split; [| split]].
      * cbn. constructor; [| exact Hnd].
        intros Hy. apply list_elem_of_fmap in Hy as (x & Heq & Hx).
        apply Hfresh in Hx. rewrite <- Heq in Hx.
        apply Hx, elem_of_union_l, elem_of_singleton. reflexivity.
      * intros x Hx. apply elem_of_cons in Hx as [-> | Hx]; [exact Hnew |].
        apply Hfresh in Hx. intros Hseen. apply Hx, elem_of_union_r, Hseen.
      * apply sublist_skip, Hsub.
      * intros x Hx. apply elem_of_cons in Hx as [-> | Hx].
        -- right. cbn. apply list_elem_of_here.
        -- destruct (Hall x Hx) as [Hseen | Hout].
           ++ apply elem_of_union in Hseen as [Hy | Hseen]; [| left; exact Hseen].
              apply elem_of_singleton in Hy. right. cbn. rewrite Hy.
              apply list_elem_of_here.
           ++ right. cbn. apply list_elem_of_further, Hout.
Qed.

(** X17. RadarView's deduplication keeps the markets of the filter in their
    order, shows no market id twice and loses no market id; the page gets at
    most 500 markets. *)
Theorem radar_markets_unique (scored : list item) :
  NoDup (ids (radar_markets score market_id scored)) /\
  radar_markets score market_id scored `sublist_of` snipable score scored /\
  (forall x, x ∈ snipable score scored ->
             market_id (market x) ∈ ids (radar_markets score market_id scored)) /\
  (length (radar_markets score market_id scored) <= 500)%nat.
Proof.
  unfold radar_markets, uniqueFiltered.
  destruct (dedup_spec ∅ (snipable score scored)) as (Hnd & _ & Hsub & Hall).
  split; [exact Hnd |]. split; [exact Hsub |]. split.
  - intros x Hx. destruct (Hall x Hx) as [Hempty | Hin]; [set_solver | exact Hin].
  - apply sublist_length in Hsub.
    pose proof (DynamicFilterProps.filter_with_length score
                  [60; 55; 50; 45; 40; 35; 30] 20 50 scored 25 500) as H.
    unfold snipable, filterSnipableMarkets, len in *. lia.
Qed.

(** *** The order of the input *)

Abbreviation scores := (@fmap list _ item Z score_of).

Lemma scores_filter (t : Z) (l : list item) :
  scores (filter (λ m : item, t <= score_of m) l) = filter (λ z, t <= z) (scores l).
Proof.
  induction l as [| x l IH]; [reflexivity |].
  rewrite fmap_cons, !filter_cons.
  destruct (decide (t <= score_of x)); [rewrite fmap_cons |]; rewrite IH; reflexivity.
Qed.

Lemma scores_slice0 (e : Z) (l : list item) :
  scores (slice0 e l) = slice0 e (scores l).
Proof.
  unfold slice0. rewrite length_fmap.
  destruct (e <? 0); apply fmap_take.
Qed.

Lemma scores_scan lowest lastResort targetMin targetMax (l1 l2 : list item) thresholds :
  scores l1 = scores l2 ->
  scores <$> scan score lowest lastResort targetMin targetMax l1 thresholds
  = scores <$> scan score lowest lastResort targetMin targetMax l2 thresholds.
Proof.
  intros Heq. induction thresholds as [| t rest IH]; [reflexivity |].
  cbn [scan].
  set (f1 := filter (λ m : item, t <= score_of m) l1).
  set (f2 := filter (λ m : item, t <= score_of m) l2).
  assert (Hf : scores f1 = scores f2)
    by (unfold f1, f2; rewrite !scores_filter, Heq; reflexivity).
  assert (Hlen : len f1 = len f2).
  { unfold len. rewrite <- (length_fmap score_of f1), Hf, length_fmap. reflexivity. }
  rewrite Hlen.
  destruct (_ && _); [cbn; rewrite Hf; reflexivity |].
  destruct (targetMax <? len f2);
    [cbn; rewrite !scores_slice0, Hf; reflexivity |].
  destruct (_ && _); [exact IH |].
  destruct (lastResort <=? len f2); [cbn; rewrite Hf; reflexivity | exact IH].
Qed.

(** X18. The scores returned do not depend on the order in which the
    markets arrive: two inputs that hold the same markets give results with
    the same sequence of scores, for any targets. *)
Theorem filterSnipableMarkets_order_independent (markets1 markets2 : list item)
    (targetMin targetMax : Z) :
  markets1 ≡ₚ markets2 ->
  scores (filterSnipableMarkets score markets1 targetMin targetMax)
  = scores (filterSnipableMarkets score markets2 targetMin targetMax).
Proof.
  intros Hperm.
  assert (Hsorted : scores (sort_desc score markets1) = scores (sort_desc score markets2)).
  { assert (Hanti : AntiSymm (=) (λ a b : Z, b <= a)) by (intros a b; lia).
    apply (StronglySorted_unique (λ a b : Z, b <= a)).
    - apply (StronglySorted_fmap _ desc); [auto | apply DynamicFilterProps.sort_desc_sorted].
    - apply (StronglySorted_fmap _ desc); [auto | apply DynamicFilterProps.sort_desc_sorted].
    - rewrite !DynamicFilterProps.sort_desc_perm, Hperm. reflexivity. }
  unfold filterSnipableMarkets, filter_with.
  pose proof (scores_scan 30 20 targetMin targetMax _ _
                [60; 55; 50; 45; 40; 35; 30] Hsorted) as Hscan.
  change (List.last [60; 55; 50; 45; 40; 35; 30] 0) with 30.
  destruct (scan score 30 20 targetMin targetMax (sort_desc score markets1) _)
    as [r1 |];
    destruct (scan score 30 20 targetMin targetMax (sort_desc score markets2) _)
      as [r2 |]; cbn in Hscan; try discriminate.
  - congruence.
  - rewrite !scores_slice0, !len_sort_desc, Hsorted.
    unfold len. rewrite Hperm. reflexivity.
Qed.

End Filter.

Lemma filterSnipableMarkets_order_independent_witness :
  fmap (score_of (λ z : Z, z))
    (filterSnipableMarkets (λ z : Z, z) (reverse FilterExamples.three) 25 500)
  = fmap (score_of (λ z : Z, z))
      (filterSnipableMarkets (λ z : Z, z) FilterExamples.three 25 500).
Proof.
  apply (filterSnipableMarkets_order_independent (λ z : Z, z)
           (reverse FilterExamples.three) FilterExamples.three 25 500).
  apply reverse_Permutation.
Defined.

Lemma filterSnipableMarkets_minimum_witness :
  Z.min 20 (len FilterExamples.three)
  <= len (filterSnipableMarkets (λ z : Z, z) FilterExamples.three 25 500).
Proof.
  apply (filterSnipableMarkets_minimum (λ z : Z, z) FilterExamples.three 25 500); lia.
Defined.

Lemma filterSnipableMarkets_small_input_witness :
  filterSnipableMarkets (λ z : Z, z) FilterExamples.three 25 500
  = sort_desc (λ z : Z, z) FilterExamples.three.
Proof.
  apply (filterSnipableMarkets_small_input (λ z : Z, z) FilterExamples.three 25 500);
    [reflexivity | lia | lia].
Defined.

Lemma take_app_take {A} (n : nat) (l k : list A) :
  take n (l ++ take n k) = take n (l ++ k).
Proof. rewrite !take_app, take_take. f_equal. f_equal. lia. Qed.

(** X19. Logging keeps the newest 100 entries, newest first: after any
    number of [addLog] calls on a console of at most 100 entries, the console
    is the first 100 of the new entries in reverse order followed by the old
    ones. *)
Theorem addLogs_keeps_newest (entries prev : list LogType) :
  (length prev <= 100)%nat ->
  addLogs entries prev = take 100 (reverse entries ++ prev) /\
  (length (addLogs entries prev) <= 100)%nat.
Proof.
  intros Hprev.
  assert (Heq : addLogs entries prev = take 100 (reverse entries ++ prev)).
  { revert prev Hprev. induction entries as [| e entries IH]; intros prev Hprev.
    - cbn. symmetry. apply take_ge. exact Hprev.
    - change (addLogs (e :: entries) prev)
        with (addLogs entries
                (addLog (log_id e) (log_timestamp e) (level e) (message e) prev)).
      rewrite IH.
      + destruct e as [i ts lv msg]. unfold addLog.
        cbn [log_id log_timestamp level message].
        rewrite take_app_take, reverse_cons, <- app_assoc. reflexivity.
      + unfold addLog. rewrite length_take. lia. }
  split; [exact Heq |]. rewrite Heq, length_take. lia.
Qed.

Lemma addLogs_keeps_newest_witness :
  addLogs [{| log_id := 3; log_timestamp := "12:00:01"; level := INFO;
              message := "scan" |}]
          [{| log_id := 1; log_timestamp := "12:00:00"; level := INFO;
              message := "start" |}]
  = [{| log_id := 3; log_timestamp := "12:00:01"; level := INFO; message := "scan" |};
     {| log_id := 1; log_timestamp := "12:00:00"; level := INFO; message := "start" |}].
Proof.
  apply (addLogs_keeps_newest
           [{| log_id := 3; log_timestamp := "12:00:01"; level := INFO;
               message := "scan" |}]
           [{| log_id := 1; log_timestamp := "12:00:00"; level := INFO;
               message := "start" |}]).
  cbn. lia.
Defined.

Lemma filterSnipableMarkets_bounded_for_all_targets_witness :
  len (filterSnipableMarkets (λ z : Z, z) FilterExamples.three 1 50) <= 50.
Proof.
  destruct (filterSnipableMarkets_bounded_for_all_targets (λ z : Z, z)
              FilterExamples.three 1 50) as [Hbound _].
  apply Hbound. reflexivity.
Defined.

Lemma dashboard_best_market_witness :
  exists best others,
    snipable (λ z : Z, z) FilterExamples.three = best :: others /\
    (forall m, m ∈ FilterExamples.three -> sniping m <= sniping best) /\
    highestScore (λ z : Z, z) (snipable (λ z : Z, z) FilterExamples.three)
    = sniping best.
Proof.
  apply (dashboard_best_market (λ z : Z, z) FilterExamples.three).
  discriminate.
Defined.

End DynamicFilterMore.

(** ** Properties of the toast list *)
Module ToastProps.
Import ToastNotification.

(** X20. Removing a toast by its id takes away every toast with that id and
    keeps the others in their order; when the id drawn for a new toast is not
    in use, adding it and removing it gives the list back. *)
Theorem removeToast_addToast (toast : ToastInput) (rnd_id : string) (prev : list Toast) :
  (forall i, Forall (λ t, toast_id t <> i) (removeToast i prev) /\
             removeToast i prev `sublist_of` prev /\
             (forall t, t ∈ prev -> toast_id t <> i -> t ∈ removeToast i prev)) /\
  (Forall (λ t, toast_id t <> rnd_id) prev ->
   removeToast rnd_id (addToast toast rnd_id prev) = prev).
Proof.
  split.
  - intros i. unfold removeToast. split; [| split].
    + apply Forall_forall. intros t Ht.
      apply list_elem_of_filter in Ht as [Hne _]. exact Hne.
    + apply sublist_filter.
    + intros t Ht Hne. apply list_elem_of_filter. split; assumption.
  - intros Hfresh. unfold removeToast, addToast.
    rewrite filter_app, filter_cons_False by (cbn; intros H; apply H; reflexivity).
    rewrite filter_nil, app_nil_r.
    induction Hfresh as [| t l Ht _ IH]; [reflexivity |].
    rewrite filter_cons_True by exact Ht. f_equal. exact IH.
Qed.

Lemma removeToast_addToast_witness :
  removeToast "b"
    (addToast {| in_type := market; in_title := "New"; in_message := "m";
                 in_duration := Some 7000 |} "b"
       [{| toast_id := "a"; toast_type := info; title := "t"; toast_message := "m";
           duration := None |}])
  = [{| toast_id := "a"; toast_type := info; title := "t"; toast_message := "m";
        duration := None |}].
Proof.
  apply (removeToast_addToast
           {| in_type := market; in_title := "New"; in_message := "m";
              in_duration := Some 7000 |} "b"
           [{| toast_id := "a"; toast_type := info; title := "t"; toast_message := "m";
               duration := None |}]).
  repeat constructor. discriminate.
Defined.

End ToastProps.
